(** * The overdensity detector of DwarfGalaxiesInSmash_WithExercises.ipynb

    The notebook defines [dwarf_filter] (a difference of two Gaussian
    convolutions over a 2-D histogram of star positions) and, in a later
    cell, maps the pixel positions of the detected peaks back to sky
    coordinates.  This file embeds both, together with the parts of numpy
    they call, and proves the properties the specification states about
    them.

    Conventions of the embedding.
    - A Python float is a rational number ([Q]): arithmetic is exact, and
      there is no NaN and no infinity.  Equality of computed values is
      therefore [Qeq] ([==]) wherever algebra is involved.
    - A one-dimensional array is only ever read by the code, so it is a
      value ([list Q]).  A two-dimensional array is copied and overwritten
      in place, so it is a buffer in a store, and the Python object is the
      buffer's location.
    - Python code runs in a monad of state (store and standard output) and
      exceptions.
    - The transcendental functions and astropy's convolution are the
      fields of a class, [Libraries]; what is assumed of them is a
      Hypothesis of the theorems. *)

From Stdlib Require Import QArith Qround Qminmax Lqa ZArith List String Lia.
From stdpp Require Import gmap strings.
Import ListNotations.

(** ** Python run time: exceptions, store, output *)

Abbreviation array1 := (list Q).
Abbreviation array2 := (list (list Q)).

(** An exception is its class name and its message. *)
Record exn := { exc_type : string; exc_msg : string }.

Definition ValueError (msg : string) : exn :=
  {| exc_type := "ValueError"; exc_msg := msg |}.
Definition IndexError (msg : string) : exn :=
  {| exc_type := "IndexError"; exc_msg := msg |}.
(** Raised by the model alone, when a location is not in the store; Python
    has no dangling reference. *)
Definition ReferenceError (msg : string) : exn :=
  {| exc_type := "ReferenceError"; exc_msg := msg |}.

(** An astropy [Table]: named columns, of integers or of floats. *)
Inductive column :=
  | IntCol (l : list Z)
  | FloatCol (l : array1).

(** What [print] wrote: a literal line, a format string with the numbers
    it was applied to, or a table. *)
Inductive output :=
  | OutStr (s : string)
  | OutFmt (fmt : string) (args : list Q)
  | OutTable (tbl : gmap string column).

Record state := { heap : gmap positive array2; stdout : list output }.

Definition set_heap (f : gmap positive array2 -> gmap positive array2) (s : state) : state :=
  {| heap := f (heap s); stdout := stdout s |}.

Inductive result (A : Type) :=
  | Ok (a : A) (s : state)
  | Raise (e : exn) (s : state).
Arguments Ok {A} a s.
Arguments Raise {A} e s.

Definition M (A : Type) := state -> result A.

Definition ret {A} (a : A) : M A := fun s => Ok a s.

Definition bind {A B} (m : M A) (f : A -> M B) : M B :=
  fun s => match m s with
           | Ok a s' => f a s'
           | Raise e s' => Raise e s'
           end.

Definition raise {A} (e : exn) : M A := fun s => Raise e s.

Notation "x <- m ;; k" := (bind m (fun x => k))
  (at level 100, m at next level, right associativity).
Notation "m ;;; k" := (bind m (fun _ => k))
  (at level 100, right associativity).

(** The outcome of running [m] from [s]: [post] of a result, [exc] of an
    exception. *)
Definition wp {A} (m : M A) (post : A -> state -> Prop) (exc : exn -> state -> Prop)
  (s : state) : Prop :=
  match m s with
  | Ok a s' => post a s'
  | Raise e s' => exc e s'
  end.

Definition print (o : output) : M unit :=
  fun s => Ok tt {| heap := heap s; stdout := stdout s ++ [o] |}.

(** A new buffer, at a location the store does not hold yet. *)
Definition alloc (a : array2) : M positive :=
  fun s => let l := fresh (dom (heap s)) in Ok l (set_heap (insert l a) s).

Definition load (l : positive) : M array2 :=
  fun s => match heap s !! l with
           | Some a => Ok a s
           | None => Raise (ReferenceError "no such buffer") s
           end.

Definition store (l : positive) (a : array2) : M unit :=
  fun s => match heap s !! l with
           | Some _ => Ok tt (set_heap (insert l a) s)
           | None => Raise (ReferenceError "no such buffer") s
           end.

(** ** numpy *)

Definition Qltb (a b : Q) : bool := negb (Qle_bool b a).

Definition QofNat (n : nat) : Q := inject_Z (Z.of_nat n).

(** The least and the greatest element of a non-empty array. *)
Definition amin (a : array1) : Q :=
  match a with
  | [] => 0%Q
  | q :: r => fold_left Qmin r q
  end.

Definition amax (a : array1) : Q :=
  match a with
  | [] => 0%Q
  | q :: r => fold_left Qmax r q
  end.

(** [a.min()] and [a.max()]: a reduction over an empty array raises. *)
Definition ndarray_min (a : array1) : M Q :=
  match a with
  | [] => raise (ValueError "zero-size array to reduction operation minimum which has no identity")
  | _ :: _ => ret (amin a)
  end.

Definition ndarray_max (a : array1) : M Q :=
  match a with
  | [] => raise (ValueError "zero-size array to reduction operation maximum which has no identity")
  | _ :: _ => ret (amax a)
  end.

(** [a[i]] for a Python integer [i]: a negative index counts from the end. *)
Definition getitem (a : array1) (i : Z) : M Q :=
  let n := Z.of_nat (length a) in
  let j := if (i <? 0)%Z then (i + n)%Z else i in
  if ((0 <=? j) && (j <? n))%Z
  then match nth_error a (Z.to_nat j) with
       | Some q => ret q
       | None => raise (IndexError "index out of bounds")
       end
  else raise (IndexError "index out of bounds").

(** [np.rint]: to the nearest integer, a tie to the even one. *)
Definition np_rint (q : Q) : Z :=
  let f := Qfloor q in
  match (q - inject_Z f ?= 1 # 2)%Q with
  | Lt => f
  | Gt => (f + 1)%Z
  | Eq => if Z.even f then f else (f + 1)%Z
  end.

(** [.astype('int')] of an integral float: the value when it fits 64 bits.
    Outside that range C leaves the conversion undefined; x86-64 yields
    the least 64-bit integer, which is what is written here. *)
Definition astype_int (z : Z) : Z :=
  if ((- 2 ^ 63 <=? z) && (z <? 2 ^ 63))%Z then z else (- 2 ^ 63)%Z.

(** [np.linspace(start, stop, num)] with the end point: [num - 1] equal
    steps, the last element set to [stop] itself. *)
Definition linspace (start stop : Q) (num : nat) : array1 :=
  match num with
  | O => []
  | S div =>
      match div with
      | O => [start]
      | S _ =>
          let step := ((stop - start) / QofNat div)%Q in
          map (fun k => (QofNat k * step + start)%Q) (seq 0 div) ++ [stop]
      end
  end.

(** The range numpy's histogram gives one axis when none is passed: the
    data's, widened by a half on each side when it is a single point. *)
Definition outer_edges (a : array1) : Q * Q :=
  match a with
  | [] => (0, 1)%Q
  | _ :: _ =>
      let first_edge := amin a in
      let last_edge := amax a in
      if Qeq_bool first_edge last_edge
      then (first_edge - 0.5, last_edge + 0.5)%Q
      else (first_edge, last_edge)
  end.

(** [np.searchsorted(edges, v, side='right')] on ascending edges: how many
    edges are at most [v]. *)
Definition searchsorted_right (edges : array1) (v : Q) : nat :=
  length (List.filter (fun e => Qle_bool e v) edges).

(** The bin number histogramdd gives a sample: bins are numbered from 1,
    0 and [n + 1] are the outliers on either side, and a sample on the last
    edge is moved into the last bin. *)
Definition bin_number (edges : array1) (v : Q) : nat :=
  let c := searchsorted_right edges v in
  if Qeq_bool v (List.last edges 0%Q) then c - 1 else c.

Definition count_in_bin (xedges yedges : array1) (pts : list (Q * Q)) (i j : nat) : nat :=
  length (List.filter (fun p => (bin_number xedges (fst p) =? S i) && (bin_number yedges (snd p) =? S j)) pts).

(** The counts of histogramdd without the outlier bins: entry [(i, j)]
    counts the samples of [x] bin [i + 1] and [y] bin [j + 1], as a float. *)
Definition histogram_counts (xedges yedges : array1) (pts : list (Q * Q)) (nbx nby : nat) : array2 :=
  map (fun i => map (fun j => QofNat (count_in_bin xedges yedges pts i j)) (seq 0 nby))
      (seq 0 nbx).

(** [np.histogram2d(x, y, (nbx, nby))]: the counts, indexed [x] bin first,
    and the edges of both axes. *)
Definition np_histogram2d (x y : array1) (bins : Z * Z) : M (positive * array1 * array1) :=
  if negb (length x =? length y)
  then raise (ValueError "x and y must have the same length.")
  else
    let '(nbx, nby) := bins in
    if (nbx <? 1)%Z
    then raise (ValueError "`bins[0]` must be positive, when an integer")
    else
      let xedges := linspace (fst (outer_edges x)) (snd (outer_edges x)) (Z.to_nat nbx + 1) in
      if (nby <? 1)%Z
      then raise (ValueError "`bins[1]` must be positive, when an integer")
      else
        let yedges := linspace (fst (outer_edges y)) (snd (outer_edges y)) (Z.to_nat nby + 1) in
        H <- alloc (histogram_counts xedges yedges (combine x y) (Z.to_nat nbx) (Z.to_nat nby)) ;;
        ret (H, xedges, yedges).

(** [a.shape] of a two-dimensional array. *)
Definition shape (a : array2) : nat * nat := (length a, length (hd [] a)).

Definition item2 (a : array2) (i j : nat) : Q := nth j (nth i a []) 0%Q.

(** [a.T] read out into a new buffer: element [(j, i)] is [a[i][j]]. *)
Definition transpose (a : array2) : array2 :=
  map (fun j => map (fun i => item2 a i j) (seq 0 (fst (shape a)))) (seq 0 (snd (shape a))).

Definition ndarray_T_copy (a : positive) : M positive :=
  v <- load a ;; alloc (transpose v).

Definition ndarray_copy (a : positive) : M positive :=
  v <- load a ;; alloc v.

Fixpoint zip_with {A B C} (f : A -> B -> C) (l : list A) (k : list B) : list C :=
  match l, k with
  | a :: l', b :: k' => f a b :: zip_with f l' k'
  | _, _ => []
  end.

(** [a - b] for arrays of one shape; numpy's broadcasting of differing
    shapes is not modelled and raises here. *)
Definition ndarray_sub (a b : positive) : M positive :=
  u <- load a ;; v <- load b ;;
  if bool_decide (map length u = map length v)
  then alloc (zip_with (zip_with Qminus) u v)
  else raise (ValueError "operands could not be broadcast together").

(** [a < v], the boolean mask. *)
Definition ndarray_lt (a : positive) (v : Q) : M (list (list bool)) :=
  u <- load a ;; ret (map (map (fun q => Qltb q v)) u).

(** [a[mask] = v], in place: only the buffer of [a] changes. *)
Definition ndarray_setitem_mask (a : positive) (mask : list (list bool)) (v : Q) : M unit :=
  u <- load a ;;
  if bool_decide (map length u = map length mask)
  then store a (zip_with (zip_with (fun q (m : bool) => if m then v else q)) u mask)
  else raise (IndexError "boolean index did not match indexed array").

Definition Qsum (l : list Q) : Q := fold_right Qplus 0%Q l.

Definition size2 (a : array2) : nat := length (concat a).

(** [np.mean] over all elements. *)
Definition mean_of (a : array2) : Q := (Qsum (concat a) / QofNat (size2 a))%Q.

Definition np_mean (a : positive) : M Q :=
  v <- load a ;; ret (mean_of v).

(** [np.arange(start, stop, step)] over floats: [ceil((stop - start) / step)]
    values [start + k * step]; no length can be computed for a zero step. *)
Definition np_arange (start stop step : Q) : M array1 :=
  if Qeq_bool step 0
  then
    if Qeq_bool (stop - start) 0
    then raise (ValueError "arange: cannot compute length")
    else raise (ValueError "Maximum allowed size exceeded")
  else
    let n := Z.to_nat (Qceiling ((stop - start) / step)) in
    ret (map (fun k => (start + QofNat k * step)%Q) (seq 0 n)).

Fixpoint mapM {A B} (f : A -> M B) (l : list A) : M (list B) :=
  match l with
  | [] => ret []
  | a :: l' => b <- f a ;; r <- mapM f l' ;; ret (b :: r)
  end.

(** [a[idx]] for an array of integers [idx]: element by element. *)
Definition take (a : array1) (idx : list Z) : M array1 := mapM (getitem a) idx.

(** Unpacking a sequence into two names. *)
Definition unpack2 (l : list Q) : M (Q * Q) :=
  match l with
  | [a; b] => ret (a, b)
  | _ => raise (ValueError "wrong number of values to unpack")
  end.

(** ** astropy *)

(** A kernel object: the standard deviation it was built with and its
    discretised values. *)
Record Kernel2D := { x_stddev : Q; kernel_array : array2 }.

Definition KeyError (msg : string) : exn :=
  {| exc_type := "KeyError"; exc_msg := msg |}.

(** [tbl[name]], read as a column of integers. *)
Definition table_ints (tbl : gmap string column) (name : string) : M (list Z) :=
  match tbl !! name with
  | Some (IntCol l) => ret l
  | Some (FloatCol _) => raise (IndexError "arrays used as indices must be of integer type")
  | None => raise (KeyError name)
  end.

(** ** The library functions the model does not compute

    [np.cos], [np.pi] and [np.sqrt]; the values astropy's
    [Gaussian2DKernel] discretises for a standard deviation and an
    oversampling factor; the array astropy's [convolve] computes from an
    array and a kernel; and astropy's [sigma_clipped_stats] (mean, median
    and standard deviation after clipping). *)
Class Libraries := {
  np_cos : Q -> Q;
  np_pi : Q;
  np_sqrt : Q -> Q;
  Gaussian2D_discretize : Q -> Z -> array2;
  convolve_values : array2 -> array2 -> array2;
  sigma_clipped_stats : array2 -> Q -> nat -> Q * Q * Q
}.

(** ** photutils *)

(** The cells of a field in row-major order: row, column, value. *)
Definition cells (field : array2) : list (nat * nat * Q) :=
  concat (imap (fun r row => imap (fun c v => (r, c, v)) row) field).

Definition dist (a b : nat) : Q := QofNat ((a - b) + (b - a)).

(** Cell [(r', c')] lies in the square of side [box_size] centred on [(r, c)]. *)
Definition in_box (box_size : Q) (r c r' c' : nat) : bool :=
  Qle_bool (2 * dist r r') box_size && Qle_bool (2 * dist c c') box_size.

Definition before (r' c' r c : nat) : bool :=
  (r' <? r) || ((r' =? r) && (c' <? c)).

Definition is_peak (field : array2) (threshold box_size : Q) (cell : nat * nat * Q) : bool :=
  let '(r, c, v) := cell in
  Qltb threshold v &&
  forallb (fun other : nat * nat * Q =>
             let '(r', c', v') := other in
             implb (in_box box_size r c r' c')
                   (if before r' c' r c then Qltb v' v else Qle_bool v' v))
          (cells field).

(** Modelled from the spec: photutils' [find_peaks] is a library function
    that is not part of the repository.  A cell is a peak when its value
    exceeds the threshold and is the maximum of the square of side
    [box_size] centred on it, the lowest index winning a tie; the result
    is a table of the peaks' pixel coordinates ([x_peak] the column,
    [y_peak] the row) and values, with no row when no cell qualifies. *)
Definition find_peaks (data : positive) (threshold box_size : Q) : M (gmap string column) :=
  field <- load data ;;
  let peaks := List.filter (fun cell => is_peak field threshold box_size cell) (cells field) in
  ret (<["x_peak" := IntCol (map (fun p => Z.of_nat (snd (fst p))) peaks)]>
       (<["y_peak" := IntCol (map (fun p => Z.of_nat (fst (fst p))) peaks)]>
       (<["peak_value" := FloatCol (map snd peaks)]> ∅))).

(** ** Reference instances of the library parameters

    Rational stand-ins for the library functions; the theorems are
    instantiated with them on concrete inputs. *)

Definition cos_ref (x : Q) : Q := (1 - x * x / 2 + x * x * x * x / 24)%Q.

Definition pi_ref : Q := (355 # 113)%Q.

Definition sqrt_ref (q : Q) : Q :=
  (inject_Z (Z.sqrt (Qfloor (q * 1000000))) / 1000)%Q.

(** A 3 x 3 bell of width [stddev], normalised to sum 1. *)
Definition bell_ref (stddev : Q) (factor : Z) : array2 :=
  let w (d2 : Q) : Q := (1 / (1 + d2 / (2 * stddev * stddev)))%Q in
  let total := (w 0 + 4 * w 1 + 4 * w 2)%Q in
  map (map (fun d2 => Qred (w d2 / total)))
      [[2; 1; 2]; [1; 0; 1]; [2; 1; 2]]%Q.

Definition item2_fill (a : array2) (i j : Z) : Q :=
  if ((0 <=? i) && (0 <=? j))%Z
  then nth (Z.to_nat j) (nth (Z.to_nat i) a []) 0%Q
  else 0%Q.

(** Direct convolution, zero beyond the border. *)
Definition convolve_ref (a k : array2) : array2 :=
  let ch := (Z.of_nat (length k) / 2)%Z in
  let cw := (Z.of_nat (length (hd [] k)) / 2)%Z in
  imap (fun i row =>
          imap (fun j _ =>
                  Qred (Qsum (concat
                    (imap (fun u krow =>
                             imap (fun v w =>
                                     (item2_fill a (Z.of_nat i + Z.of_nat u - ch)
                                                   (Z.of_nat j + Z.of_nat v - cw) * w)%Q)
                                  krow)
                          k))))
               row)
       a.

Definition stats_ref (a : array2) (sigma : Q) (maxiters : nat) : Q * Q * Q :=
  (mean_of a, mean_of a, 0%Q).

Definition reference : Libraries :=
  {| np_cos := cos_ref; np_pi := pi_ref; np_sqrt := sqrt_ref;
     Gaussian2D_discretize := bell_ref; convolve_values := convolve_ref;
     sigma_clipped_stats := stats_ref |}.

(** A field of four stars, two arcminutes wide and three high, and the
    state of a fresh interpreter. *)
Definition ra_ref : array1 := [0; 1 # 30; 1 # 60; 1 # 50]%Q.
Definition dec_ref : array1 := [0; 1 # 20; 1 # 60; 1 # 40]%Q.

Definition fresh_state : state := {| heap := ∅; stdout := [] |}.

(** A clipped field of three rows and two columns in the store, and a
    table with one peak at column 1 of row 2. *)
Definition field_ref : array2 := [[1; 2]; [3; 4]; [5; 6]]%Q.
Definition field_state : state := {| heap := {[ 1%positive := field_ref ]}; stdout := [] |}.
Definition peaks_ref : gmap string column :=
  <["x_peak" := IntCol [1%Z]]>
  (<["y_peak" := IntCol [2%Z]]>
  (<["peak_value" := FloatCol [6%Q]]> ∅)).

(** ** The notebook *)

Section Detector.

Context {Lib : Libraries}.

(** [convolution.Gaussian2DKernel(stddev, factor=...)]: the kernel keeps
    the standard deviation it is given. *)
Definition Gaussian2DKernel (stddev : Q) (factor : Z) : Kernel2D :=
  {| x_stddev := stddev; kernel_array := Gaussian2D_discretize stddev factor |}.

(** [convolution.convolve(array, kernel)]: a new array.  With a Gaussian
    kernel, whose sides are odd, astropy raises nothing here. *)
Definition convolution_convolve (a : positive) (kernel : Kernel2D) : M positive :=
  v <- load a ;; alloc (convolve_values v (kernel_array kernel)).

(** [np.std]: the root of the mean squared deviation from the mean. *)
Definition std_of (a : array2) : Q :=
  np_sqrt (mean_of (map (map (fun q => ((q - mean_of a) * (q - mean_of a))%Q)) a)).

Definition np_std (a : positive) : M Q :=
  v <- load a ;; ret (std_of v).

(** The local variables of [dwarf_filter] when it returns. *)
Record locals := {
  ymean : Q;
  ydiff_arcmin : Q;
  xdiff : Q;
  xmean : Q;
  xdiff_angular : Q;
  xdiff_angular_arcmin : Q;
  nx : Z;
  ny : Z;
  Counts : positive;
  xedges : array1;
  yedges : array1;
  extent : list Q;
  raw_hist : positive;
  kernel_small : Kernel2D;
  kernel_big : Kernel2D;
  conv_big : positive;
  conv_small : positive;
  conv_delta : positive;
  delta : positive;
  mean : Q;
  sigma : Q;
  sigmaRaw : Q;
  floor : Q;
  clipped : positive
}.

(** The body of [dwarf_filter], statement by statement, ending in the
    frame of its local variables.  [ra] and [dec] are numpy arrays, as the
    docstring has them. *)
Definition dwarf_filter_body (ra dec : array1) (fwhm_small fwhm_big : Q) : M locals :=
  let x := ra in
  let y := dec in
  print (OutStr "Computing differential convolution .... ") ;;;
  y_min <- ndarray_min y ;;
  y_max <- ndarray_max y ;;
  let ymean := ((y_min + y_max) / 2)%Q in
  y_max <- ndarray_max y ;;
  y_min <- ndarray_min y ;;
  let ydiff_arcmin := ((y_max - y_min) * 60)%Q in
  x_max <- ndarray_max x ;;
  x_min <- ndarray_min x ;;
  let xdiff := (x_max - x_min)%Q in
  x_min <- ndarray_min x ;;
  x_max <- ndarray_max x ;;
  let xmean := ((x_min + x_max) / 2)%Q in
  x_max <- ndarray_max x ;;
  x_min <- ndarray_min x ;;
  let xdiff_angular := ((x_max - x_min) * np_cos (ymean * (np_pi / 180)))%Q in
  let xdiff_angular_arcmin := (xdiff_angular * 60)%Q in
  let nx := astype_int (np_rint xdiff_angular_arcmin) in
  let ny := astype_int (np_rint ydiff_arcmin) in
  h <- np_histogram2d x y (nx, ny) ;;
  let Counts := fst (fst h) in
  let xedges := snd (fst h) in
  let yedges := snd h in
  x0 <- getitem xedges 0 ;;
  x1 <- getitem xedges (-1) ;;
  y0 <- getitem yedges 0 ;;
  y1 <- getitem yedges (-1) ;;
  let extent := [x0; x1; y0; y1] in
  raw_hist <- ndarray_T_copy Counts ;;
  let kernel_small := Gaussian2DKernel (fwhm_small / 2.35) 1 in
  let kernel_big := Gaussian2DKernel (fwhm_big / 2.35) 1 in
  conv_big <- convolution_convolve raw_hist kernel_big ;;
  conv_small <- convolution_convolve raw_hist kernel_small ;;
  conv_delta <- ndarray_sub conv_small conv_big ;;
  delta <- ndarray_copy conv_delta ;;
  mean <- np_mean delta ;;
  sigma <- np_std delta ;;
  sigmaRaw <- np_std raw_hist ;;
  let floor := mean in
  print (OutFmt "dwarf_filter: mean = {:g}  sigma = {:g} sigmaRaw = {:g}"
                [mean; sigma; sigmaRaw]) ;;;
  clipped <- ndarray_copy delta ;;
  mask <- ndarray_lt delta floor ;;
  ndarray_setitem_mask clipped mask floor ;;;
  ret {| ymean := ymean; ydiff_arcmin := ydiff_arcmin; xdiff := xdiff; xmean := xmean;
         xdiff_angular := xdiff_angular; xdiff_angular_arcmin := xdiff_angular_arcmin;
         nx := nx; ny := ny; Counts := Counts; xedges := xedges; yedges := yedges;
         extent := extent; raw_hist := raw_hist;
         kernel_small := kernel_small; kernel_big := kernel_big;
         conv_big := conv_big; conv_small := conv_small; conv_delta := conv_delta;
         delta := delta; mean := mean; sigma := sigma; sigmaRaw := sigmaRaw;
         floor := floor; clipped := clipped |}.

(** [dwarf_filter(ra, dec, fwhm_small, fwhm_big)]: what the [return]
    statement hands out of the frame.  The defaults of the two widths, 2.0
    and 20, are for the caller to pass. *)
Definition dwarf_filter (ra dec : array1) (fwhm_small fwhm_big : Q)
  : M (positive * list Q * positive * positive * Q) :=
  f <- dwarf_filter_body ra dec fwhm_small fwhm_big ;;
  ret (raw_hist f, extent f, delta f, clipped f, sigma f).

(** The second half of the peak cell: the [ra] and [dec] columns added to
    the table of peaks. *)
Definition add_ra_dec (clipped : positive) (extent : list Q) (tbl : gmap string column)
  : M (gmap string column) :=
  ss <- unpack2 (firstn 2 extent) ;;
  let start := fst ss in
  let stop := snd ss in
  c <- load clipped ;;
  let step_size := ((stop - start) / QofNat (snd (shape c)))%Q in
  xvec <- np_arange start (stop + step_size) step_size ;;
  ss <- unpack2 (skipn 2 extent) ;;
  let start := fst ss in
  let stop := snd ss in
  c <- load clipped ;;
  let step_size := ((stop - start) / QofNat (fst (shape c)))%Q in
  yvec <- np_arange start (stop + step_size) step_size ;;
  xs <- table_ints tbl "x_peak" ;;
  ra <- take xvec xs ;;
  let tbl := <["ra" := FloatCol ra]> tbl in
  ys <- table_ints tbl "y_peak" ;;
  dec <- take yvec ys ;;
  let tbl := <["dec" := FloatCol dec]> tbl in
  ret tbl.

(** The peak cell: peaks of the clipped field above [median + 10], their
    sky coordinates, and the table printed. *)
Definition peaks_cell (clipped : positive) (extent : list Q) (small_k : Q)
  : M (gmap string column) :=
  c <- load clipped ;;
  let median := snd (fst (sigma_clipped_stats c 3 5)) in
  tbl <- find_peaks clipped (median + 10) (small_k * 2) ;;
  tbl <- add_ra_dec clipped extent tbl ;;
  print (OutTable tbl) ;;;
  ret tbl.



(** *** What a run of [dwarf_filter] leaves behind *)

(** The bin counts [dwarf_filter] computes from its input. *)
Definition bins_x (ra dec : array1) : Z :=
  astype_int (np_rint ((amax ra - amin ra)
                       * np_cos ((amin dec + amax dec) / 2 * (np_pi / 180)) * 60)%Q).

Definition bins_y (dec : array1) : Z :=
  astype_int (np_rint ((amax dec - amin dec) * 60)%Q).

(** Valid input, on which [dwarf_filter] runs to its end: arrays that are
    not empty, of one length, and at least one bin along each axis. *)
Definition valid_input (ra dec : array1) : Prop :=
  ra <> [] /\ dec <> [] /\ length ra = length dec /\
  (1 <= bins_x ra dec)%Z /\ (1 <= bins_y dec)%Z.

(** The content of a buffer, [[]] where there is none. *)
Definition val (s : state) (l : positive) : array2 :=
  match heap s !! l with
  | Some a => a
  | None => []
  end.

(** [clipped[delta < floor] = floor] on the values. *)
Definition floor_at (floor : Q) (a : array2) : array2 :=
  zip_with (zip_with (fun q (m : bool) => if m then floor else q))
           a (map (map (fun q => Qltb q floor)) a).

Definition new_buffers (f : locals) : list positive :=
  [Counts f; raw_hist f; conv_big f; conv_small f; conv_delta f; delta f; clipped f].

(** The frame [f] and the state [s'] at the [return] of a run started in
    [s]. *)
Record returns (ra dec : array1) (fwhm_small fwhm_big : Q) (s : state)
  (f : locals) (s' : state) : Prop := {
  ret_valid : valid_input ra dec;
  ret_ymean : ymean f = ((amin dec + amax dec) / 2)%Q;
  ret_ydiff_arcmin : ydiff_arcmin f = ((amax dec - amin dec) * 60)%Q;
  ret_xdiff : xdiff f = (amax ra - amin ra)%Q;
  ret_xmean : xmean f = ((amin ra + amax ra) / 2)%Q;
  ret_xdiff_angular :
    xdiff_angular f = ((amax ra - amin ra) * np_cos (ymean f * (np_pi / 180)))%Q;
  ret_xdiff_angular_arcmin : xdiff_angular_arcmin f = (xdiff_angular f * 60)%Q;
  ret_nx : nx f = astype_int (np_rint (xdiff_angular_arcmin f));
  ret_ny : ny f = astype_int (np_rint (ydiff_arcmin f));
  ret_xedges :
    xedges f = linspace (fst (outer_edges ra)) (snd (outer_edges ra)) (Z.to_nat (nx f) + 1);
  ret_yedges :
    yedges f = linspace (fst (outer_edges dec)) (snd (outer_edges dec)) (Z.to_nat (ny f) + 1);
  ret_extent :
    exists x0, nth_error (xedges f) 0 = Some x0 /\
    exists y0, nth_error (yedges f) 0 = Some y0 /\
    extent f = [x0; List.last (xedges f) 0%Q; y0; List.last (yedges f) 0%Q];
  ret_kernel_small : kernel_small f = Gaussian2DKernel (fwhm_small / 2.35) 1;
  ret_kernel_big : kernel_big f = Gaussian2DKernel (fwhm_big / 2.35) 1;
  ret_Counts :
    heap s' !! Counts f =
    Some (histogram_counts (xedges f) (yedges f) (combine ra dec)
                           (Z.to_nat (nx f)) (Z.to_nat (ny f)));
  ret_raw_hist : heap s' !! raw_hist f = Some (transpose (val s' (Counts f)));
  ret_conv_big :
    heap s' !! conv_big f =
    Some (convolve_values (val s' (raw_hist f)) (kernel_array (kernel_big f)));
  ret_conv_small :
    heap s' !! conv_small f =
    Some (convolve_values (val s' (raw_hist f)) (kernel_array (kernel_small f)));
  ret_conv_delta :
    heap s' !! conv_delta f =
    Some (zip_with (zip_with Qminus) (val s' (conv_small f)) (val s' (conv_big f)));
  ret_delta : heap s' !! delta f = Some (val s' (conv_delta f));
  ret_mean : mean f = mean_of (val s' (delta f));
  ret_sigma : sigma f = std_of (val s' (delta f));
  ret_sigmaRaw : sigmaRaw f = std_of (val s' (raw_hist f));
  ret_floor : floor f = mean f;
  ret_clipped : heap s' !! clipped f = Some (floor_at (floor f) (val s' (delta f)));
  ret_distinct : List.NoDup (new_buffers f);
  ret_fresh : forall l, In l (new_buffers f) -> heap s !! l = None;
  ret_frame : forall l, ~ In l (new_buffers f) -> heap s' !! l = heap s !! l;
  ret_stdout :
    stdout s' =
    stdout s ++ [OutStr "Computing differential convolution .... ";
                 OutFmt "dwarf_filter: mean = {:g}  sigma = {:g} sigmaRaw = {:g}"
                        [mean f; sigma f; sigmaRaw f]]
}.

(** The exception [e] and the state [s'] of a run started in [s] that does
    not return: numpy's [ValueError], on input that is not valid, after the
    first line was printed, with the store as it was. *)
Record rejects (ra dec : array1) (s : state) (e : exn) (s' : state) : Prop := {
  rej_type : exc_type e = "ValueError";
  rej_invalid : ~ valid_input ra dec;
  rej_heap : heap s' = heap s;
  rej_stdout : stdout s' = stdout s ++ [OutStr "Computing differential convolution .... "]
}.


(** *** What the histogram is to hold *)

(** Edges in strictly ascending order. *)
Definition ascending (l : array1) : Prop :=
  forall i j a b, (i < j)%nat -> nth_error l i = Some a -> nth_error l j = Some b -> (a < b)%Q.

(** A value falls in bin [i] of [n]: from edge [i] up to, and without, edge
    [i + 1]; the last bin includes its upper edge. *)
Definition in_binb (edges : array1) (n i : nat) (v : Q) : bool :=
  match nth_error edges i, nth_error edges (S i) with
  | Some lo, Some hi =>
      Qle_bool lo v && (Qltb v hi || ((S i =? n) && Qeq_bool v hi))
  | _, _ => false
  end.

(** [rows] rows of [cols] elements each. *)
Definition has_shape (a : array2) (rows cols : nat) : Prop :=
  map length a = repeat cols rows.

Definition sum_nat (l : list nat) : nat := fold_right Nat.add 0%nat l.

(** The arithmetic mean of a one-dimensional array. *)
Definition arithmetic_mean (a : array1) : Q := (Qsum a / QofNat (length a))%Q.

End Detector.


(** * The image cells

    The peaks found are looked up in the image archive:
    [download_deepest_images] asks the image service for the images around
    a position and downloads, for each band, the stacked image of the
    longest exposure; the next cell subtracts each image's median, adds a
    colour composite and hands the four pictures to [plot_images].

    Conventions, beyond those above.
    - The image service and the download are the fields of a class,
      [Services]; a failure of the network is outside the model.
    - A downloaded image is only ever read, so it is a value.
    - A matplotlib figure is the list of its axes, each with what was
      drawn on it. *)

Definition TypeError (msg : string) : exn :=
  {| exc_type := "TypeError"; exc_msg := msg |}.

(** A row of the table an image search returns, with the columns the
    notebook reads; [exptime] is the column after [astype('float')]. *)
Record image_row := {
  proctype : string;
  prodtype : string;
  obs_bandpass : string;
  exptime : Q;
  access_url : string
}.

(** What a panel shows: an image, or the colour composite
    [make_lupton_rgb] makes of three. *)
Inductive picture :=
  | Mono (a : array2)
  | Lupton (image_r image_g image_b : array2) (stretch : Q).

(** [svc.search(pos, size, verbosity=2).to_table()], the download
    [io.fits.getdata(utils.data.download_file(url, ...))], and
    [make_lupton_rgb] called with more than its three images, where the
    meaning of the further positional parameters depends on the version
    of astropy. *)
Class Services := {
  svc_search : Q * Q -> Q * Q -> list image_row;
  fits_getdata : string -> array2;
  make_lupton_rgb_more : list array2 -> Q -> exn + picture
}.

(** ** numpy and astropy, continued *)

(** [table[name] == value], a column of strings against a string. *)
Definition column_eq (name : image_row -> string) (table : list image_row) (value : string)
  : list bool :=
  map (fun row => String.eqb (name row) value) table.

(** [table[mask]] for a boolean mask. *)
Definition table_mask (table : list image_row) (mask : list bool) : list image_row :=
  map fst (List.filter snd (combine table mask)).

(** [table[k]] for an integer. *)
Definition table_row (table : list image_row) (k : nat) : M image_row :=
  match nth_error table k with
  | Some row => ret row
  | None => raise (IndexError "index out of range")
  end.

(** [np.argmax]: the first position of the greatest value. *)
Fixpoint argmax_from (best : Q) (at_best : nat) (i : nat) (a : array1) : nat :=
  match a with
  | [] => at_best
  | q :: r =>
      if Qltb best q then argmax_from q i (S i) r else argmax_from best at_best (S i) r
  end.

Definition np_argmax (a : array1) : M nat :=
  match a with
  | [] => raise (ValueError "attempt to get argmax of an empty sequence")
  | q :: r => ret (argmax_from q 0 1 r)
  end.

(** [tbl[name]] read as numbers. *)
Definition table_floats (tbl : gmap string column) (name : string) : M array1 :=
  match tbl !! name with
  | Some (FloatCol l) => ret l
  | Some (IntCol l) => ret (map inject_Z l)
  | None => raise (KeyError name)
  end.

(** The values of an array in ascending order. *)
Fixpoint insert_sorted (x : Q) (l : array1) : array1 :=
  match l with
  | [] => [x]
  | y :: r => if Qle_bool x y then x :: l else y :: insert_sorted x r
  end.

Definition np_sort (l : array1) : array1 := fold_right insert_sorted [] l.

(** [np.median] over all elements: the middle one of the sorted values,
    or the mean of the two middle ones.  For an array without elements
    numpy gives NaN, which the model does not have. *)
Definition np_median (a : array2) : Q :=
  let v := np_sort (concat a) in
  let n := length v in
  if Nat.even n
  then ((nth (n / 2 - 1) v 0 + nth (n / 2) v 0) / 2)%Q
  else nth (n / 2) v 0%Q.

(** [a - v] for a number [v], as a new array. *)
Definition ndarray_sub_scalar (a : array2) (v : Q) : array2 :=
  map (map (fun q => (q - v)%Q)) a.

(** [make_lupton_rgb] on an unpacked list of images: three are needed. *)
Definition make_lupton_rgb {Svc : Services} (args : list array2) (stretch : Q) : M picture :=
  match args with
  | [image_r; image_g; image_b] => ret (Lupton image_r image_g image_b stretch)
  | _ :: _ :: _ :: _ :: _ =>
      match make_lupton_rgb_more args stretch with
      | inr rgb => ret rgb
      | inl e => raise e
      end
  | _ => raise (TypeError "make_lupton_rgb() missing required positional arguments")
  end.

(** ** matplotlib *)

(** One axes of a figure: the image shown, whether the frame is drawn,
    the title. *)
Record axes := { image : option picture; axis_on : bool; title : option string }.

Definition add_subplot : axes := {| image := None; axis_on := true; title := None |}.

Definition imshow (img : picture) (ax : axes) : axes :=
  {| image := Some img; axis_on := axis_on ax; title := title ax |}.

Definition axis_off (ax : axes) : axes :=
  {| image := image ax; axis_on := false; title := title ax |}.

Definition set_title (t : string) (ax : axes) : axes :=
  {| image := image ax; axis_on := axis_on ax; title := Some t |}.

(** ** The notebook, continued *)

Section Images.

Context {Lib : Libraries} {Svc : Services}.

(** The body of the loop over the bands. *)
Definition deepest_image (imgTable : list image_row) (sel0 : list bool) (band : string)
  : M array2 :=
  print (OutStr ("Band " ++ band ++ ": ")) ;;;
  let sel := zip_with andb sel0 (column_eq obs_bandpass imgTable band) in
  let Table := table_mask imgTable sel in
  k <- np_argmax (map exptime Table) ;;
  row <- table_row Table k ;;
  let url := access_url row in
  print (OutStr "downloading deepest stacked image...") ;;;
  let img := fits_getdata url in
  ret img.

Fixpoint for_bands (body : string -> M array2) (bands : list string) (images : list array2)
  : M (list array2) :=
  match bands with
  | [] => ret images
  | band :: rest =>
      img <- body band ;;
      for_bands body rest (images ++ [img])
  end.

Definition download_deepest_images (ra dec fov : Q) (bands : list string) : M (list array2) :=
  let imgTable := svc_search (ra, dec) (fov / np_cos (dec * np_pi / 180), fov)%Q in
  print (OutFmt "The full image list contains {:d} entries." [QofNat (length imgTable)]) ;;;
  let sel0 := zip_with andb (column_eq proctype imgTable "Stack")
                            (column_eq prodtype imgTable "image") in
  images <- for_bands (deepest_image imgTable sel0) bands [] ;;
  print (OutFmt "Downloaded {:d} images." [QofNat (length images)]) ;;;
  ret images.

(** The loop of [plot_images] over [zip(np.arange(4), axes, images)]:
    the figure as drawn so far, and the exception that ended the loop,
    if one did. *)
Fixpoint plot_loop (fig : list axes) (panels : list (nat * picture)) (titles : list string)
  : list axes * option exn :=
  match panels with
  | [] => (fig, None)
  | (j, img) :: rest =>
      let fig := alter (imshow img) j fig in
      let fig := alter axis_off j fig in
      match titles !! j with
      | Some t => plot_loop (alter (set_title t) j fig) rest titles
      | None => (fig, Some (IndexError "list index out of range"))
      end
  end.

Definition plot_images (images : list picture) (titles : list string)
  : list axes * option exn :=
  let fig := [add_subplot; add_subplot; add_subplot; add_subplot] in
  plot_loop fig (combine (seq 0 4) images) titles.

(** The cells that fetch the images of peak [idx]. *)
Definition images_cell (tbl : gmap string column) (idx : Z) (bands : list string)
  : M (list array2) :=
  col <- table_floats tbl "ra" ;; ra <- getitem col idx ;;
  col <- table_floats tbl "dec" ;; dec <- getitem col idx ;;
  print (OutFmt "{} {}" [ra; dec]) ;;;
  col <- table_floats tbl "ra" ;; ra <- getitem col idx ;;
  col <- table_floats tbl "dec" ;; dec <- getitem col idx ;;
  download_deepest_images ra dec 0.1 bands.

(** The cells that plot them: the figure shown. *)
Definition plot_cell (images : list array2) (bands : list string) : M (list axes) :=
  let images := map (fun im => ndarray_sub_scalar im (np_median im)) images in
  rgb <- make_lupton_rgb (rev images) 30 ;;
  let images := map Mono images ++ [rgb] in
  match plot_images images (bands ++ ["3-band image"]) with
  | (fig, None) => ret fig
  | (_, Some e) => raise e
  end.

(** A stacked image of a band, as the selection has it. *)
Definition stacked (band : string) (row : image_row) : Prop :=
  proctype row = "Stack" /\ prodtype row = "image" /\ obs_bandpass row = band.

Definition stackedb (band : string) (row : image_row) : bool :=
  String.eqb (proctype row) "Stack" && String.eqb (prodtype row) "image"
  && String.eqb (obs_bandpass row) band.

(** The row the loop body picks, if the band has a stacked image: one of
    the greatest exposure time. *)
Definition deepest (table : list image_row) (band : string) (row : image_row) : Prop :=
  In row table /\ stacked band row /\
  forall row', In row' table -> stacked band row' -> (exptime row' <= exptime row)%Q.

(** The basic selection [sel0] of a table. *)
Definition sel0_of (table : list image_row) : list bool :=
  zip_with andb (column_eq proctype table "Stack") (column_eq prodtype table "image").

(** An axes with its image shown, its frame off and its title set. *)
Definition panel (img : picture) (t : string) : axes :=
  {| image := Some img; axis_on := false; title := Some t |}.

End Images.

(** Image services to run the cells on: an archive of five images. *)
Definition rows_ref : list image_row :=
  [ {| proctype := "Stack"; prodtype := "image"; obs_bandpass := "g";
       exptime := 90; access_url := "g90" |};
    {| proctype := "Stack"; prodtype := "image"; obs_bandpass := "r";
       exptime := 60; access_url := "r60" |};
    {| proctype := "Stack"; prodtype := "image"; obs_bandpass := "g";
       exptime := 120; access_url := "g120" |};
    {| proctype := "InstCal"; prodtype := "image"; obs_bandpass := "g";
       exptime := 300; access_url := "g300" |};
    {| proctype := "Stack"; prodtype := "image"; obs_bandpass := "i";
       exptime := 45; access_url := "i45" |} ]%Q.

Definition services_ref : Services :=
  {| svc_search := fun _ _ => rows_ref;
     fits_getdata := fun url => [[QofNat (String.length url); 1]; [2; 0]]%Q;
     make_lupton_rgb_more := fun _ _ => inl (TypeError "make_lupton_rgb() got multiple values") |}.

(** * The query cell

    [makequery] writes the position of a peak and a radius into the text
    of a database query with [str.format]: the field number with [{:d}],
    the three numbers with [{:f}], which is six digits after the point,
    the last one rounded, a tie to the even digit. *)

Definition digit (d : N) : Ascii.ascii := Ascii.ascii_of_N (48 + d).

(** The decimal digits of a natural number, the most significant first. *)
Fixpoint decimal_digits (fuel : nat) (n : N) : string :=
  match fuel with
  | O => EmptyString
  | S fuel' =>
      if (n <? 10)%N
      then String (digit n) EmptyString
      else decimal_digits fuel' (n / 10) ++ String (digit (n mod 10)) EmptyString
  end.

Definition format_N (n : N) : string := decimal_digits (S (N.to_nat (N.log2 n))) n.

(** [format(z, 'd')]. *)
Definition format_d (z : Z) : string :=
  if (z <? 0)%Z then "-" ++ format_N (Z.to_N (- z)) else format_N (Z.to_N z).

Definition six_digits (m : N) : string :=
  String (digit (m / 100000 mod 10))
 (String (digit (m / 10000 mod 10))
 (String (digit (m / 1000 mod 10))
 (String (digit (m / 100 mod 10))
 (String (digit (m / 10 mod 10))
 (String (digit (m mod 10)) EmptyString))))).

(** [format(q, 'f')]: the sign, the integer part, the point and six
    digits of the number of millionths nearest to [|q|]. *)
Definition format_f (q : Q) : string :=
  let negative := Qltb q 0 in
  let millionths := Z.to_N (np_rint ((if negative then - q else q) * 1000000)) in
  (if negative then "-" else "")
  ++ format_N (millionths / 1000000) ++ "." ++ six_digits (millionths mod 1000000).

(** The text of the query around the four formatted values. *)
Definition query_template (field ra0 dec0 radius0 : string) : string :=
  "
SELECT ra,dec,gmag,rmag FROM smash_dr1.object
  WHERE fieldid = " ++ field ++ "
    AND depthflag > 1
    AND abs(sharp) < 0.5
    AND gmag BETWEEN 9 AND 25
    AND q3c_radial_query(ra,dec," ++ ra0 ++ "," ++ dec0 ++ "," ++ radius0 ++ ")
".

Definition makequery (ra0 dec0 radius0 : Q) (field : Z) : string :=
  let query := query_template (format_d field) (format_f ra0) (format_f dec0)
                              (format_f radius0) in
  query.

(** The defaults of [radius0] and [field]. *)
Definition radius0_default : Q := 5 / 60.
Definition field_default : Z := 169.

(** Reading a number back from its text. *)
Definition minus_sign : Ascii.ascii := Ascii.ascii_of_N 45.
Definition point : Ascii.ascii := Ascii.ascii_of_N 46.

Definition digit_value (c : Ascii.ascii) : option N :=
  let v := Ascii.N_of_ascii c in
  if ((48 <=? v) && (v <=? 57))%N then Some (v - 48)%N else None.

Fixpoint read_digits (acc : N) (s : string) : option N :=
  match s with
  | EmptyString => Some acc
  | String c r =>
      match digit_value c with
      | Some d => read_digits (acc * 10 + d) r
      | None => None
      end
  end.

Definition read_N (s : string) : option N :=
  match s with
  | EmptyString => None
  | String _ _ => read_digits 0 s
  end.

Definition read_d (s : string) : option Z :=
  match s with
  | EmptyString => None
  | String c r =>
      if Ascii.eqb c minus_sign
      then option_map (fun n => (- Z.of_N n)%Z) (read_N r)
      else option_map Z.of_N (read_N s)
  end.

Fixpoint split_point (s : string) : option (string * string) :=
  match s with
  | EmptyString => None
  | String c r =>
      if Ascii.eqb c point
      then Some (EmptyString, r)
      else option_map (fun ab => (String c (fst ab), snd ab)) (split_point r)
  end.

Definition read_unsigned (s : string) : option Q :=
  match split_point s with
  | Some (a, b) =>
      match read_N a, read_N b with
      | Some whole, Some part =>
          Some (inject_Z (Z.of_N whole)
                + inject_Z (Z.of_N part) / inject_Z (10 ^ Z.of_nat (String.length b)))%Q
      | _, _ => None
      end
  | None => None
  end.

Definition read_f (s : string) : option Q :=
  match s with
  | EmptyString => None
  | String c r =>
      if Ascii.eqb c minus_sign then option_map Qopp (read_unsigned r) else read_unsigned s
  end.
(** * Proofs *)

Section Correctness.

Context {Lib : Libraries}.

(** [convolve] returns an array of the dimensions of its input. *)
Hypothesis convolve_shape :
  forall a k, map length (convolve_values a k) = map length a.

(** ** Running the monad *)

Lemma wp_ret {A} (a : A) post exc s : post a s -> wp (ret a) post exc s.
Proof. intros H. exact H. Qed.

Lemma wp_raise {A} e (post : A -> state -> Prop) exc s : exc e s -> wp (raise e) post exc s.
Proof. intros H. exact H. Qed.

Lemma wp_bind {A B} (m : M A) (f : A -> M B) post exc s :
  wp m (fun a s1 => wp (f a) post exc s1) exc s -> wp (bind m f) post exc s.
Proof. unfold wp, bind. destruct (m s); auto. Qed.


Lemma wp_print o post exc s :
  post tt {| heap := heap s; stdout := stdout s ++ [o] |} -> wp (print o) post exc s.
Proof. intros H. exact H. Qed.

Lemma wp_alloc a post exc s :
  (forall l, heap s !! l = None -> post l (set_heap (insert l a) s)) ->
  wp (alloc a) post exc s.
Proof.
  intros H. unfold wp, alloc. apply H.
  apply not_elem_of_dom, is_fresh.
Qed.

Lemma wp_load l a post exc s :
  heap s !! l = Some a -> post a s -> wp (load l) post exc s.
Proof. intros Hl H. unfold wp, load. rewrite Hl. exact H. Qed.

Lemma wp_store l a a0 post exc s :
  heap s !! l = Some a0 -> post tt (set_heap (insert l a) s) -> wp (store l a) post exc s.
Proof. intros Hl H. unfold wp, store. rewrite Hl. exact H. Qed.

Lemma wp_ndarray_min a post exc s :
  (a = [] -> exc (ValueError "zero-size array to reduction operation minimum which has no identity") s) ->
  (a <> [] -> post (amin a) s) ->
  wp (ndarray_min a) post exc s.
Proof. intros He Hp. destruct a; [ apply He | apply Hp ]; congruence. Qed.

Lemma wp_ndarray_max a post exc s :
  (a = [] -> exc (ValueError "zero-size array to reduction operation maximum which has no identity") s) ->
  (a <> [] -> post (amax a) s) ->
  wp (ndarray_max a) post exc s.
Proof. intros He Hp. destruct a; [ apply He | apply Hp ]; congruence. Qed.

(** The operations on buffers, each from a store that holds its operands. *)

Lemma wp_T_copy l a post exc s :
  heap s !! l = Some a ->
  (forall l', heap s !! l' = None -> post l' (set_heap (insert l' (transpose a)) s)) ->
  wp (ndarray_T_copy l) post exc s.
Proof.
  intros Hl H. unfold ndarray_T_copy.
  apply wp_bind, (wp_load _ _ _ _ _ Hl), wp_alloc, H.
Qed.

Lemma wp_copy l a post exc s :
  heap s !! l = Some a ->
  (forall l', heap s !! l' = None -> post l' (set_heap (insert l' a) s)) ->
  wp (ndarray_copy l) post exc s.
Proof.
  intros Hl H. unfold ndarray_copy.
  apply wp_bind, (wp_load _ _ _ _ _ Hl), wp_alloc, H.
Qed.

Lemma wp_sub l1 l2 a1 a2 post exc s :
  heap s !! l1 = Some a1 -> heap s !! l2 = Some a2 ->
  map length a1 = map length a2 ->
  (forall l', heap s !! l' = None ->
              post l' (set_heap (insert l' (zip_with (zip_with Qminus) a1 a2)) s)) ->
  wp (ndarray_sub l1 l2) post exc s.
Proof.
  intros H1 H2 Hs H. unfold ndarray_sub.
  apply wp_bind, (wp_load _ _ _ _ _ H1), wp_bind, (wp_load _ _ _ _ _ H2).
  rewrite bool_decide_eq_true_2 by exact Hs. apply wp_alloc, H.
Qed.

Lemma wp_mean l a post exc s :
  heap s !! l = Some a -> post (mean_of a) s -> wp (np_mean l) post exc s.
Proof.
  intros Hl H. unfold np_mean. apply wp_bind, (wp_load _ _ _ _ _ Hl), wp_ret, H.
Qed.

Lemma wp_std l a post exc s :
  heap s !! l = Some a -> post (std_of a) s -> wp (np_std l) post exc s.
Proof.
  intros Hl H. unfold np_std. apply wp_bind, (wp_load _ _ _ _ _ Hl), wp_ret, H.
Qed.

Lemma wp_convolve l a k post exc s :
  heap s !! l = Some a ->
  (forall l', heap s !! l' = None ->
              post l' (set_heap (insert l' (convolve_values a (kernel_array k))) s)) ->
  wp (convolution_convolve l k) post exc s.
Proof.
  intros Hl H. unfold convolution_convolve.
  apply wp_bind, (wp_load _ _ _ _ _ Hl), wp_alloc, H.
Qed.

Lemma wp_lt l a v post exc s :
  heap s !! l = Some a -> post (map (map (fun q => Qltb q v)) a) s ->
  wp (ndarray_lt l v) post exc s.
Proof.
  intros Hl H. unfold ndarray_lt. apply wp_bind, (wp_load _ _ _ _ _ Hl), wp_ret, H.
Qed.

Lemma map_length_map_map {A B} (f : A -> B) (a : list (list A)) :
  map length (map (map f) a) = map length a.
Proof. induction a as [|r a IH]; simpl; [ reflexivity | ]. now rewrite length_map, IH. Qed.

Lemma wp_setitem_lt l a a0 v post exc s :
  heap s !! l = Some a0 ->
  map length a0 = map length a ->
  post tt (set_heap (insert l (zip_with (zip_with (fun q (m : bool) => if m then v else q))
                                        a0 (map (map (fun q => Qltb q v)) a))) s) ->
  wp (ndarray_setitem_mask l (map (map (fun q => Qltb q v)) a) v) post exc s.
Proof.
  intros Hl Hs H. unfold ndarray_setitem_mask.
  apply wp_bind, (wp_load _ _ _ _ _ Hl).
  rewrite bool_decide_eq_true_2 by (now rewrite map_length_map_map).
  apply (wp_store _ _ _ _ _ _ Hl), H.
Qed.

(** ** numpy: indexing and [linspace] *)

Lemma getitem_0 q r : getitem (q :: r) 0 = ret q.
Proof.
  unfold getitem. cbn [Z.ltb Z.compare].
  assert (H : ((0 <=? 0) && (0 <? Z.of_nat (length (q :: r))))%Z = true).
  { apply andb_true_intro. split; [ reflexivity | ].
    apply Z.ltb_lt. cbn [length]. lia. }
  rewrite H. reflexivity.
Qed.

Lemma getitem_last r q : getitem (r ++ [q]) (-1) = ret q.
Proof.
  unfold getitem. cbn [Z.ltb Z.compare].
  rewrite length_app. cbn [length].
  replace (-1 + Z.of_nat (length r + 1))%Z with (Z.of_nat (length r)) by lia.
  assert (H : ((0 <=? Z.of_nat (length r)) && (Z.of_nat (length r) <? Z.of_nat (length r + 1)))%Z = true).
  { apply andb_true_intro. split; [ apply Z.leb_le | apply Z.ltb_lt ]; lia. }
  rewrite H, Nat2Z.id, nth_error_app2 by lia.
  rewrite Nat.sub_diag. reflexivity.
Qed.

Lemma wp_getitem_0 a q post exc s :
  nth_error a 0 = Some q -> post q s -> wp (getitem a 0) post exc s.
Proof.
  intros Ha H. destruct a as [|q' r]; [ discriminate | ].
  injection Ha as ->. rewrite getitem_0. exact H.
Qed.

Lemma wp_getitem_last a post exc s :
  a <> [] -> post (List.last a 0%Q) s -> wp (getitem a (-1)) post exc s.
Proof.
  intros Ha H. destruct (exists_last Ha) as (r & q & ->).
  rewrite getitem_last. rewrite last_last in H. exact H.
Qed.

Lemma linspace_steps start stop n :
  (1 <= n)%nat ->
  linspace start stop (n + 1) =
  map (fun k => (QofNat k * ((stop - start) / QofNat n) + start)%Q) (seq 0 n) ++ [stop].
Proof.
  intros Hn. rewrite Nat.add_1_r. destruct n as [|n]; [ lia | reflexivity ].
Qed.

Lemma length_linspace start stop n :
  (1 <= n)%nat -> length (linspace start stop (n + 1)) = (n + 1)%nat.
Proof.
  intros Hn. rewrite linspace_steps by exact Hn.
  now rewrite length_app, length_map, length_seq.
Qed.

Lemma linspace_first start stop n :
  (1 <= n)%nat ->
  nth_error (linspace start stop (n + 1)) 0 =
  Some (QofNat 0 * ((stop - start) / QofNat n) + start)%Q.
Proof.
  intros Hn. rewrite linspace_steps by exact Hn.
  destruct n as [|n]; [ lia | reflexivity ].
Qed.

Lemma linspace_last start stop n :
  (1 <= n)%nat -> List.last (linspace start stop (n + 1)) 0%Q = stop.
Proof.
  intros Hn. rewrite linspace_steps by exact Hn. apply last_last.
Qed.

Lemma linspace_nth start stop n k :
  (1 <= n)%nat -> (k < n)%nat ->
  nth_error (linspace start stop (n + 1)) k =
  Some (QofNat k * ((stop - start) / QofNat n) + start)%Q.
Proof.
  intros Hn Hk. rewrite linspace_steps by exact Hn.
  rewrite nth_error_app1 by (now rewrite length_map, length_seq).
  rewrite nth_error_map, nth_error_seq.
  destruct (Nat.ltb_spec k n); [ reflexivity | lia ].
Qed.

Lemma linspace_nth_last start stop n :
  (1 <= n)%nat -> nth_error (linspace start stop (n + 1)) n = Some stop.
Proof.
  intros Hn. rewrite linspace_steps by exact Hn.
  rewrite nth_error_app2 by (rewrite length_map, length_seq; lia).
  rewrite length_map, length_seq, Nat.sub_diag. reflexivity.
Qed.

Lemma wp_histogram2d x y nbx nby post exc s :
  (length x <> length y \/ (nbx < 1)%Z \/ (nby < 1)%Z ->
   forall msg, exc (ValueError msg) s) ->
  (length x = length y -> (1 <= nbx)%Z -> (1 <= nby)%Z ->
   forall l, heap s !! l = None ->
     let xedges := linspace (fst (outer_edges x)) (snd (outer_edges x)) (Z.to_nat nbx + 1) in
     let yedges := linspace (fst (outer_edges y)) (snd (outer_edges y)) (Z.to_nat nby + 1) in
     post (l, xedges, yedges)
          (set_heap (insert l (histogram_counts xedges yedges (combine x y)
                                                (Z.to_nat nbx) (Z.to_nat nby))) s)) ->
  wp (np_histogram2d x y (nbx, nby)) post exc s.
Proof.
  intros He Hp. unfold np_histogram2d.
  destruct (Nat.eqb_spec (length x) (length y)) as [Hl|Hl]; cbn [negb].
  2: { apply wp_raise, He. now left. }
  destruct (Z.ltb_spec nbx 1) as [Hx|Hx].
  { apply wp_raise, He. right. now left. }
  destruct (Z.ltb_spec nby 1) as [Hy|Hy].
  { apply wp_raise, He. right. now right. }
  apply wp_bind, wp_alloc. intros l Hfresh. apply wp_ret.
  apply Hp; assumption.
Qed.

(** The numpy functions on small inputs. *)

Example rint_ties :
  np_rint 0.5 = 0%Z /\ np_rint 1.5 = 2%Z /\ np_rint 2.5 = 2%Z /\
  np_rint (-0.5) = 0%Z /\ np_rint 2.4 = 2%Z /\ np_rint 2.6 = 3%Z.
Proof. repeat split; reflexivity. Qed.

Example linspace_thirds : Forall2 Qeq (linspace 0 1 4) [0; 1 # 3; 2 # 3; 1]%Q.
Proof. repeat constructor. Qed.

Example bins_of_three_edges :
  bin_number [0; 1; 2]%Q (-1) = 0%nat /\ bin_number [0; 1; 2]%Q 0 = 1%nat /\
  bin_number [0; 1; 2]%Q 1 = 2%nat /\ bin_number [0; 1; 2]%Q 2 = 2%nat /\
  bin_number [0; 1; 2]%Q 3 = 3%nat.
Proof. repeat split; reflexivity. Qed.

Example histogram2d_of_four_stars :
  exists l xe ye s',
    np_histogram2d ra_ref dec_ref (2, 3)%Z fresh_state = Ok (l, xe, ye) s' /\
    heap s' !! l = Some [[1; 0; 0]; [0; 2; 1]]%Q.
Proof. do 4 eexists. split; vm_compute; reflexivity. Qed.

Example transpose_2_by_3 :
  transpose [[1; 0; 0]; [0; 2; 1]]%Q = [[1; 0]; [0; 2]; [0; 1]]%Q.
Proof. reflexivity. Qed.

(** ** One run of [dwarf_filter] *)

Ltac known_nonempty H :=
  apply wp_bind;
  first [ apply wp_ndarray_min | apply wp_ndarray_max ];
  [ let E := fresh in intros E; exfalso; exact (H E) | intros _ ].

Ltac fresh_loc l H :=
  intros l H; cbn [heap set_heap] in H;
  repeat (let H' := fresh "Hne" in apply lookup_insert_None in H as [H H']).

Ltac heap_lookup :=
  cbn [heap set_heap];
  repeat first [ rewrite lookup_insert_eq | rewrite lookup_insert_ne by congruence ];
  try reflexivity.

Lemma dwarf_filter_body_wp ra dec fwhm_small fwhm_big s :
  wp (dwarf_filter_body ra dec fwhm_small fwhm_big)
     (returns ra dec fwhm_small fwhm_big s) (rejects ra dec s) s.
Proof using convolve_shape.
  unfold dwarf_filter_body.
  apply wp_bind, wp_print.
  set (s1 := {| heap := heap s; stdout := _ |}).
  assert (Hrej : forall msg, ~ valid_input ra dec -> rejects ra dec s (ValueError msg) s1).
  { intros msg Hinv. split; [ reflexivity | exact Hinv | reflexivity | reflexivity ]. }
  apply wp_bind, wp_ndarray_min.
  { intros ->. apply Hrej. intros (_ & H & _). congruence. }
  intros Hdec.
  do 3 known_nonempty Hdec.
  apply wp_bind, wp_ndarray_max.
  { intros ->. apply Hrej. intros (H & _). congruence. }
  intros Hra.
  do 5 known_nonempty Hra.
  cbn zeta. fold (bins_y dec). fold (bins_x ra dec).
  apply wp_bind, wp_histogram2d.
  { intros Hbad msg. apply Hrej. intros (_ & _ & Hlen & Hx & Hy). lia. }
  intros Hlen Hnx Hny. fresh_loc l1 Hl1. cbn zeta. cbn [fst snd].
  set (xe := linspace _ _ (Z.to_nat (bins_x ra dec) + 1)).
  set (ye := linspace _ _ (Z.to_nat (bins_y dec) + 1)).
  assert (Hxe0 : nth_error xe 0 = Some (QofNat 0 * ((snd (outer_edges ra) - fst (outer_edges ra)) / QofNat (Z.to_nat (bins_x ra dec))) + fst (outer_edges ra))%Q).
  { apply linspace_first. lia. }
  assert (Hye0 : nth_error ye 0 = Some (QofNat 0 * ((snd (outer_edges dec) - fst (outer_edges dec)) / QofNat (Z.to_nat (bins_y dec))) + fst (outer_edges dec))%Q).
  { apply linspace_first. lia. }
  assert (Hxne : xe <> []) by (intros E; rewrite E in Hxe0; discriminate).
  assert (Hyne : ye <> []) by (intros E; rewrite E in Hye0; discriminate).
  apply wp_bind, (wp_getitem_0 _ _ _ _ _ Hxe0).
  apply wp_bind, wp_getitem_last; [ exact Hxne | ].
  apply wp_bind, (wp_getitem_0 _ _ _ _ _ Hye0).
  apply wp_bind, wp_getitem_last; [ exact Hyne | ].
  set (cnt := histogram_counts _ _ _ _ _).
  apply wp_bind, (wp_T_copy l1 cnt); [ heap_lookup | ].
  fresh_loc l2 Hl2.
  set (raw := transpose cnt).
  apply wp_bind, (wp_convolve l2 raw); [ heap_lookup | ].
  fresh_loc l3 Hl3.
  apply wp_bind, (wp_convolve l2 raw); [ heap_lookup | ].
  fresh_loc l4 Hl4.
  set (cb := convolve_values raw (kernel_array (Gaussian2DKernel (fwhm_big / 2.35) 1))).
  set (cs := convolve_values raw (kernel_array (Gaussian2DKernel (fwhm_small / 2.35) 1))).
  apply wp_bind, (wp_sub l4 l3 cs cb); [ heap_lookup | heap_lookup | | ].
  { unfold cs, cb. now rewrite !convolve_shape. }
  fresh_loc l5 Hl5.
  set (d := zip_with (zip_with Qminus) cs cb).
  apply wp_bind, (wp_copy l5 d); [ heap_lookup | ].
  fresh_loc l6 Hl6.
  apply wp_bind, (wp_mean l6 d); [ heap_lookup | ].
  apply wp_bind, (wp_std l6 d); [ heap_lookup | ].
  apply wp_bind, (wp_std l2 raw); [ heap_lookup | ].
  apply wp_bind, wp_print.
  apply wp_bind, (wp_copy l6 d); [ heap_lookup | ].
  fresh_loc l7 Hl7.
  apply wp_bind, (wp_lt l6 d); [ heap_lookup | ].
  apply wp_bind, (wp_setitem_lt l7 d d); [ heap_lookup | reflexivity | ].
  apply wp_ret.
  assert (Hs1 : heap s1 = heap s) by reflexivity.
  split; cbn [ymean ydiff_arcmin xdiff xmean xdiff_angular xdiff_angular_arcmin nx ny
              Counts xedges yedges extent raw_hist kernel_small kernel_big conv_big
              conv_small conv_delta delta mean sigma sigmaRaw floor clipped new_buffers];
    unfold val; try (heap_lookup; fail).
  - repeat split; assumption.
  - exists (QofNat 0 * ((snd (outer_edges ra) - fst (outer_edges ra)) / QofNat (Z.to_nat (bins_x ra dec))) + fst (outer_edges ra))%Q.
    split; [ exact Hxe0 | ].
    exists (QofNat 0 * ((snd (outer_edges dec) - fst (outer_edges dec)) / QofNat (Z.to_nat (bins_y dec))) + fst (outer_edges dec))%Q.
    split; [ exact Hye0 | reflexivity ].
  - repeat (apply List.NoDup_cons; [ cbn; intuition congruence | ]). apply List.NoDup_nil.
  - intros l Hl. cbn in Hl. rewrite <- Hs1. intuition (subst; assumption).
  - intros l Hl. cbn in Hl. cbn [heap set_heap].
    rewrite !lookup_insert_ne by (intros ->; apply Hl; tauto). reflexivity.
  - cbn [stdout set_heap s1]. now rewrite <- app_assoc.
Qed.

(** ** numpy: reductions and the histogram *)

Lemma fold_Qmin_le r : forall q, (fold_left Qmin r q <= q)%Q /\ forall v, In v r -> (fold_left Qmin r q <= v)%Q.
Proof.
  induction r as [|a r IH]; intros q; cbn [fold_left].
  - split; [ apply Qle_refl | intros v [] ].
  - destruct (IH (Qmin q a)) as [H1 H2]. split.
    + eapply Qle_trans; [ exact H1 | apply Q.le_min_l ].
    + intros v [<-|Hv]; [ | now apply H2 ].
      eapply Qle_trans; [ exact H1 | apply Q.le_min_r ].
Qed.

Lemma fold_Qmax_ge r : forall q, (q <= fold_left Qmax r q)%Q /\ forall v, In v r -> (v <= fold_left Qmax r q)%Q.
Proof.
  induction r as [|a r IH]; intros q; cbn [fold_left].
  - split; [ apply Qle_refl | intros v [] ].
  - destruct (IH (Qmax q a)) as [H1 H2]. split.
    + eapply Qle_trans; [ apply Q.le_max_l | exact H1 ].
    + intros v [<-|Hv]; [ | now apply H2 ].
      eapply Qle_trans; [ apply Q.le_max_r | exact H1 ].
Qed.

Lemma amin_le a v : In v a -> (amin a <= v)%Q.
Proof.
  destruct a as [|q r]; [ intros [] | ]. cbn [amin].
  destruct (fold_Qmin_le r q) as [H1 H2]. intros [<-|Hv]; auto.
Qed.

Lemma amax_ge a v : In v a -> (v <= amax a)%Q.
Proof.
  destruct a as [|q r]; [ intros [] | ]. cbn [amax].
  destruct (fold_Qmax_ge r q) as [H1 H2]. intros [<-|Hv]; auto.
Qed.

Lemma outer_edges_lt a : (fst (outer_edges a) < snd (outer_edges a))%Q.
Proof.
  destruct a as [|q r]; [ reflexivity | ].
  unfold outer_edges.
  assert (Hle : (amin (q :: r) <= amax (q :: r))%Q).
  { eapply Qle_trans; [ apply (amin_le _ q) | apply (amax_ge _ q) ]; now left. }
  destruct (Qeq_bool (amin (q :: r)) (amax (q :: r))) eqn:E; cbn [fst snd].
  - apply Qeq_bool_eq in E. lra.
  - apply Qeq_bool_neq in E. lra.
Qed.


(** On distinct extremes the range is the data's own. *)
Lemma outer_edges_data a :
  a <> [] -> ~ (amin a == amax a)%Q -> outer_edges a = (amin a, amax a).
Proof.
  intros Ha Hne. destruct a as [|q r]; [ congruence | ].
  unfold outer_edges. destruct (Qeq_bool _ _) eqn:E; [ | reflexivity ].
  apply Qeq_bool_eq in E. contradiction.
Qed.

Lemma ascending_tail a l : ascending (a :: l) -> ascending l.
Proof.
  intros H i j x y Hij Hi Hj. apply (H (S i) (S j) x y); [ lia | exact Hi | exact Hj ].
Qed.

Lemma ascending_head a l v : ascending (a :: l) -> In v l -> (a < v)%Q.
Proof.
  intros H Hv. apply In_nth_error in Hv as [k Hk].
  apply (H 0%nat (S k) a v); [ lia | reflexivity | exact Hk ].
Qed.

Lemma QofNat_lt i j : (i < j)%nat -> (QofNat i < QofNat j)%Q.
Proof. intros H. unfold QofNat. rewrite <- Zlt_Qlt. lia. Qed.

Lemma QofNat_pos n : (1 <= n)%nat -> (0 < QofNat n)%Q.
Proof. intros H. apply (QofNat_lt 0 n). lia. Qed.

Lemma linspace_ascending start stop n :
  (1 <= n)%nat -> (start < stop)%Q -> ascending (linspace start stop (n + 1)).
Proof.
  intros Hn Hlt i j a b Hij Hi Hj.
  assert (Hj' : (j < n + 1)%nat).
  { rewrite <- (length_linspace start stop n Hn). apply nth_error_Some. congruence. }
  pose proof (QofNat_pos n Hn) as Hpos.
  assert (Hstep : (0 < (stop - start) / QofNat n)%Q).
  { apply Qlt_shift_div_l; [ exact Hpos | lra ]. }
  rewrite linspace_nth in Hi by lia. injection Hi as <-.
  destruct (Nat.eq_dec j n) as [->|Hjn].
  - rewrite linspace_nth_last in Hj by exact Hn. injection Hj as <-.
    pose proof (QofNat_lt i n Hij) as Hin.
    assert (E : (stop == QofNat n * ((stop - start) / QofNat n) + start)%Q).
    { field. lra. }
    rewrite E at 2. apply Qplus_lt_l. apply Qmult_lt_compat_r; assumption.
  - rewrite linspace_nth in Hj by lia. injection Hj as <-.
    apply Qplus_lt_l. apply Qmult_lt_compat_r; [ exact Hstep | ].
    now apply QofNat_lt.
Qed.

Lemma Qltb_lt a b : Qltb a b = true <-> (a < b)%Q.
Proof.
  unfold Qltb. rewrite negb_true_iff. split.
  - intros H. apply Qnot_le_lt. intros Hle. apply Qle_bool_iff in Hle. congruence.
  - intros H. destruct (Qle_bool b a) eqn:E; [ | reflexivity ].
    apply Qle_bool_iff in E. lra.
Qed.

Lemma Qltb_ge a b : Qltb a b = false <-> (b <= a)%Q.
Proof.
  unfold Qltb. rewrite negb_false_iff. apply Qle_bool_iff.
Qed.

(** On ascending edges [searchsorted] splits them: the edges before its
    result are at most [v], the others are greater. *)
Lemma searchsorted_right_spec edges v :
  ascending edges ->
  (forall i a, (i < searchsorted_right edges v)%nat -> nth_error edges i = Some a -> (a <= v)%Q) /\
  (forall i a, (searchsorted_right edges v <= i)%nat -> nth_error edges i = Some a -> (v < a)%Q) /\
  (searchsorted_right edges v <= length edges)%nat.
Proof.
  unfold searchsorted_right.
  induction edges as [|e l IH]; intros Hasc.
  - cbn. repeat split; try lia; intros [|i] a; cbn; intros; try lia; discriminate.
  - specialize (IH (ascending_tail _ _ Hasc)). destruct IH as (IH1 & IH2 & IH3).
    destruct (Qle_bool e v) eqn:E.
    + cbn [List.filter]. rewrite E. cbn [length].
      apply Qle_bool_iff in E.
      repeat split.
      * intros [|i] a Hi Ha; cbn in Ha; [ injection Ha as <-; exact E | ].
        apply (IH1 i); [ lia | exact Ha ].
      * intros [|i] a Hi Ha; [ lia | ]. cbn in Ha. apply (IH2 i); [ lia | exact Ha ].
      * lia.
    + cbn [List.filter]. rewrite E.
      assert (Hv : (v < e)%Q).
      { apply Qnot_le_lt. intros H. apply Qle_bool_iff in H. congruence. }
      assert (Hz : length (List.filter (fun e0 => Qle_bool e0 v) l) = 0%nat).
      { destruct (length (List.filter (fun e0 => Qle_bool e0 v) l)) as [|c] eqn:Ec;
          [ reflexivity | ].
        destruct l as [|b l]; [ cbn in Ec; discriminate | ].
        assert (Hb : (b <= v)%Q) by (apply (IH1 0%nat); [ lia | reflexivity ]).
        assert (Heb : (e < b)%Q) by (apply (ascending_head e (b :: l) b Hasc); now left).
        lra. }
      rewrite Hz. repeat split.
      * intros i a Hi. lia.
      * intros [|i] a _ Ha; cbn in Ha; [ injection Ha as <-; exact Hv | ].
        apply (IH2 i); [ lia | exact Ha ].
      * cbn [length]. lia.
Qed.

Lemma last_nth_error (l : array1) d n x :
  length l = S n -> nth_error l n = Some x -> List.last l d = x.
Proof.
  intros Hlen Hn. destruct l as [|a l'] using rev_ind; [ discriminate | ].
  rewrite last_last. rewrite length_app in Hlen. cbn in Hlen.
  rewrite nth_error_app2 in Hn by lia.
  replace (n - length l')%nat with 0%nat in Hn by lia. now injection Hn.
Qed.

Lemma nth_error_lt_Some (l : array1) i : (i < length l)%nat -> exists a, nth_error l i = Some a.
Proof.
  intros H. destruct (nth_error l i) eqn:E; [ eauto | ].
  apply nth_error_None in E. lia.
Qed.

(** On ascending edges the bin number of a value is [i + 1] exactly when
    the value falls in bin [i]. *)
Lemma bin_number_in_binb edges n i v :
  ascending edges -> length edges = (n + 1)%nat -> (i < n)%nat ->
  (bin_number edges v =? S i) = in_binb edges n i v.
Proof.
  intros Hasc Hlen Hi.
  destruct (searchsorted_right_spec edges v Hasc) as (P1 & P2 & P3).
  destruct (nth_error_lt_Some edges i) as [lo Hlo]; [ lia | ].
  destruct (nth_error_lt_Some edges (S i)) as [hi Hhi]; [ lia | ].
  destruct (nth_error_lt_Some edges n) as [top Htop]; [ lia | ].
  assert (Hlast : List.last edges 0%Q = top).
  { apply (last_nth_error _ _ n); [ lia | exact Htop ]. }
  assert (Hhitop : (hi <= top)%Q).
  { destruct (Nat.eq_dec (S i) n) as [E|E].
    - rewrite E in Hhi. rewrite Htop in Hhi. injection Hhi as <-. apply Qle_refl.
    - apply Qlt_le_weak. apply (Hasc (S i) n); [ lia | exact Hhi | exact Htop ]. }
  unfold bin_number, in_binb. rewrite Hlo, Hhi, Hlast.
  set (c := searchsorted_right edges v) in *.
  apply eq_true_iff_eq. split.
  - intros H.
    destruct (Qeq_bool v top) eqn:E; apply Nat.eqb_eq in H.
    + apply Qeq_bool_eq in E.
      assert (Hc : c = (n + 1)%nat).
      { destruct (Nat.le_gt_cases c n) as [Hle|Hgt]; [ | lia ].
        pose proof (P2 n top Hle Htop). lra. }
      assert (Hin : S i = n) by lia.
      rewrite Hin in Hhi. rewrite Htop in Hhi. injection Hhi as <-.
      apply andb_true_intro. split.
      * apply Qle_bool_iff. apply (P1 i); [ lia | exact Hlo ].
      * apply orb_true_intro. right. apply andb_true_intro. split.
        -- now apply Nat.eqb_eq.
        -- now apply Qeq_bool_iff.
    + apply andb_true_intro. split.
      * apply Qle_bool_iff. apply (P1 i); [ lia | exact Hlo ].
      * apply orb_true_intro. left. apply Qltb_lt. apply (P2 (S i)); [ lia | exact Hhi ].
  - intros H. apply andb_prop in H as [Hle H]. apply Qle_bool_iff in Hle.
    apply orb_prop in H as [H|H].
    + apply Qltb_lt in H.
      assert (Hc : c = S i).
      { destruct (Nat.le_gt_cases c i) as [Hci|Hci].
        - pose proof (P2 i lo Hci Hlo). lra.
        - destruct (Nat.le_gt_cases c (S i)) as [Hcs|Hcs]; [ lia | ].
          pose proof (P1 (S i) hi Hcs Hhi). lra. }
      destruct (Qeq_bool v top) eqn:E.
      * apply Qeq_bool_eq in E. lra.
      * now apply Nat.eqb_eq.
    + apply andb_prop in H as [Hin Heq].
      apply Nat.eqb_eq in Hin. apply Qeq_bool_eq in Heq.
      rewrite Hin in Hhi. rewrite Htop in Hhi. injection Hhi as <-.
      assert (Hc : c = (n + 1)%nat).
      { destruct (Nat.le_gt_cases c n) as [Hcn|Hcn]; [ | lia ].
        pose proof (P2 n top Hcn Htop). lra. }
      assert (E : Qeq_bool v top = true) by now apply Qeq_bool_iff.
      rewrite E. apply Nat.eqb_eq. lia.
Qed.

(** A value between the first and the last edge is no outlier. *)
Lemma bin_number_range edges n v lo top :
  ascending edges -> length edges = (n + 1)%nat -> (1 <= n)%nat ->
  nth_error edges 0 = Some lo -> nth_error edges n = Some top ->
  (lo <= v <= top)%Q ->
  (1 <= bin_number edges v <= n)%nat.
Proof.
  intros Hasc Hlen Hn Hlo Htop Hv.
  destruct (searchsorted_right_spec edges v Hasc) as (P1 & P2 & P3).
  assert (Hlast : List.last edges 0%Q = top).
  { apply (last_nth_error _ _ n); [ lia | exact Htop ]. }
  unfold bin_number. rewrite Hlast.
  set (c := searchsorted_right edges v) in *.
  assert (Hc1 : (1 <= c)%nat).
  { destruct c as [|c]; [ | lia ]. pose proof (P2 0%nat lo (Nat.le_refl _) Hlo). lra. }
  destruct (Qeq_bool v top) eqn:E.
  - apply Qeq_bool_eq in E.
    assert (Hc : c = (n + 1)%nat).
    { destruct (Nat.le_gt_cases c n) as [Hcn|Hcn]; [ | lia ].
      pose proof (P2 n top Hcn Htop). lra. }
    lia.
  - apply Qeq_bool_neq in E.
    destruct (Nat.le_gt_cases c n) as [Hcn|Hcn]; [ lia | ].
    pose proof (P1 n top Hcn Htop). lra.
Qed.

(** ** Two-dimensional arrays *)

Lemma nth_map_seq {A} (f : nat -> A) n i d :
  (i < n)%nat -> nth i (map f (seq 0 n)) d = f i.
Proof.
  intros H. rewrite (nth_indep _ d (f 0%nat)) by (now rewrite length_map, length_seq).
  rewrite map_nth, seq_nth by exact H. reflexivity.
Qed.

Lemma has_shape_map_seq (g : nat -> nat -> Q) rows cols :
  has_shape (map (fun i => map (g i) (seq 0 cols)) (seq 0 rows)) rows cols.
Proof.
  unfold has_shape. rewrite map_map.
  rewrite (map_ext _ (fun _ => cols)) by (intros i; now rewrite length_map, length_seq).
  generalize 0%nat. induction rows as [|r IH]; intros k; cbn; [ reflexivity | ].
  now rewrite IH.
Qed.

Lemma has_shape_length a rows cols : has_shape a rows cols -> length a = rows.
Proof.
  intros H. apply (f_equal (@length nat)) in H.
  now rewrite length_map, repeat_length in H.
Qed.

Lemma has_shape_row a rows cols i :
  has_shape a rows cols -> (i < rows)%nat -> length (nth i a []) = cols.
Proof.
  intros H Hi. pose proof (has_shape_length _ _ _ H) as Hlen.
  apply (f_equal (fun l => nth i l 0%nat)) in H.
  rewrite (nth_indep _ 0%nat (length (@nil Q))) in H by (rewrite length_map; lia).
  rewrite map_nth in H. rewrite H.
  apply nth_repeat_lt. exact Hi.
Qed.

Lemma has_shape_shape a rows cols :
  has_shape a rows cols -> (1 <= rows)%nat -> shape a = (rows, cols).
Proof.
  intros H Hr. unfold shape.
  rewrite (has_shape_length _ _ _ H). f_equal.
  rewrite <- (has_shape_row a rows cols 0 H) by lia.
  destruct a; reflexivity.
Qed.

Lemma has_shape_eq a b rows cols :
  map length a = map length b -> has_shape b rows cols -> has_shape a rows cols.
Proof. unfold has_shape. congruence. Qed.

Lemma length_zip_with {A B C} (f : A -> B -> C) l k :
  length l = length k -> length (zip_with f l k) = length l.
Proof.
  revert k. induction l as [|a l IH]; intros [|b k] H; cbn in *; try congruence.
  now rewrite IH by lia.
Qed.

Lemma map_length_zip_with {A B C} (f : A -> B -> C) (a : list (list A)) (b : list (list B)) :
  map length a = map length b ->
  map length (zip_with (zip_with f) a b) = map length a.
Proof.
  revert b. induction a as [|r a IH]; intros [|r' b] H; cbn in *; try congruence.
  injection H as Hr Hab. now rewrite length_zip_with, IH.
Qed.

Lemma nth_zip_with {A B C} (f : A -> B -> C) l k i dc da db :
  (i < length l)%nat -> (i < length k)%nat ->
  nth i (zip_with f l k) dc = f (nth i l da) (nth i k db).
Proof.
  revert k i. induction l as [|a l IH]; intros [|b k] [|i] Hl Hk; cbn in *; try lia.
  - reflexivity.
  - apply IH; lia.
Qed.

Lemma item2_zip_with (f : Q -> Q -> Q) a b rows cols i j :
  has_shape a rows cols -> has_shape b rows cols ->
  (i < rows)%nat -> (j < cols)%nat ->
  item2 (zip_with (zip_with f) a b) i j = f (item2 a i j) (item2 b i j).
Proof.
  intros Ha Hb Hi Hj. unfold item2.
  rewrite (nth_zip_with _ a b i [] [] [])
    by (rewrite ?(has_shape_length _ _ _ Ha), ?(has_shape_length _ _ _ Hb); exact Hi).
  apply nth_zip_with.
  - now rewrite (has_shape_row _ _ _ _ Ha Hi).
  - now rewrite (has_shape_row _ _ _ _ Hb Hi).
Qed.

Lemma zip_with_map_r {A B C} (f : A -> B -> C) (g : A -> B) l :
  zip_with f l (map g l) = map (fun x => f x (g x)) l.
Proof. induction l as [|a l IH]; cbn; [ reflexivity | now rewrite IH ]. Qed.


(** The flooring step, value by value. *)
Lemma floor_at_map v a :
  floor_at v a = map (map (fun q => if Qltb q v then v else q)) a.
Proof.
  unfold floor_at. induction a as [|r a IH]; cbn; [ reflexivity | ].
  now rewrite zip_with_map_r, IH.
Qed.

Lemma item2_map_map (g : Q -> Q) a rows cols i j :
  has_shape a rows cols -> (i < rows)%nat -> (j < cols)%nat ->
  item2 (map (map g) a) i j = g (item2 a i j).
Proof.
  intros Ha Hi Hj. unfold item2.
  pose proof (has_shape_length _ _ _ Ha) as Hlen.
  pose proof (has_shape_row _ _ _ _ Ha Hi) as Hrow.
  rewrite (nth_indep (map (map g) a) [] (map g [])) by (rewrite length_map; lia).
  rewrite map_nth.
  rewrite (nth_indep (map g _) 0%Q (g 0%Q)) by (rewrite length_map; lia).
  now rewrite map_nth.
Qed.

Lemma item2_histogram_counts xe ye pts nbx nby i j :
  (i < nbx)%nat -> (j < nby)%nat ->
  item2 (histogram_counts xe ye pts nbx nby) i j = QofNat (count_in_bin xe ye pts i j).
Proof.
  intros Hi Hj. unfold item2, histogram_counts.
  rewrite nth_map_seq by exact Hi. now rewrite nth_map_seq by exact Hj.
Qed.

(** The transposed counts: row [j] is [y] bin [j], column [i] is [x] bin [i]. *)
Lemma transpose_histogram_counts xe ye pts nbx nby :
  (1 <= nbx)%nat ->
  transpose (histogram_counts xe ye pts nbx nby) =
  map (fun j => map (fun i => QofNat (count_in_bin xe ye pts i j)) (seq 0 nbx)) (seq 0 nby).
Proof.
  intros Hx. unfold transpose.
  rewrite (has_shape_shape _ nbx nby) by (apply has_shape_map_seq || exact Hx).
  cbn [fst snd].
  apply map_ext_in. intros j Hj. apply in_seq in Hj.
  apply map_ext_in. intros i Hi. apply in_seq in Hi.
  apply item2_histogram_counts; lia.
Qed.

Lemma item2_transposed_counts xe ye pts nbx nby i j :
  (i < nbx)%nat -> (j < nby)%nat ->
  item2 (transpose (histogram_counts xe ye pts nbx nby)) j i =
  item2 (histogram_counts xe ye pts nbx nby) i j.
Proof.
  intros Hi Hj. rewrite transpose_histogram_counts by lia.
  rewrite item2_histogram_counts by assumption.
  unfold item2. rewrite nth_map_seq by exact Hj. now rewrite nth_map_seq by exact Hi.
Qed.

(** ** The mass of the histogram *)

Lemma sum_nat_app l k : sum_nat (l ++ k) = (sum_nat l + sum_nat k)%nat.
Proof.
  unfold sum_nat. induction l as [|a l IH]; cbn [app fold_right]; [ reflexivity | ].
  rewrite IH. lia.
Qed.

Lemma sum_nat_concat (L : list (list nat)) : sum_nat (concat L) = sum_nat (map sum_nat L).
Proof.
  induction L as [|l L IH]; [ reflexivity | ].
  cbn [concat map]. rewrite sum_nat_app, IH. reflexivity.
Qed.

Lemma sum_nat_map_add {A} (f g : A -> nat) l :
  sum_nat (map (fun a => f a + g a)%nat l) = (sum_nat (map f l) + sum_nat (map g l))%nat.
Proof.
  unfold sum_nat. induction l as [|a l IH]; cbn [map fold_right]; [ reflexivity | ].
  rewrite IH. lia.
Qed.

Lemma Qsum_QofNat l : (Qsum (map QofNat l) == QofNat (sum_nat l))%Q.
Proof.
  induction l as [|a l IH]; cbn; [ reflexivity | ].
  rewrite IH. unfold QofNat. rewrite Nat2Z.inj_add, inject_Z_plus. reflexivity.
Qed.

(** Exactly one index of [0 .. n - 1] has [k] as its successor, when [k] is
    in [1 .. n]. *)
Lemma indicator_sum k n (b : bool) :
  sum_nat (map (fun i => if (k =? S i) && b then 1 else 0)%nat (seq 0 n)) =
  if b && (1 <=? k) && (k <=? n) then 1%nat else 0%nat.
Proof.
  induction n as [|n IH].
  - cbn. destruct b, k; reflexivity.
  - rewrite seq_S, map_app, sum_nat_app, IH. cbn [map sum_nat fold_right Nat.add].
    destruct b; cbn [andb]; [ | rewrite !andb_false_r; reflexivity ].
    rewrite !andb_true_r.
    destruct (Nat.eqb_spec k (S n)), (Nat.leb_spec 1 k), (Nat.leb_spec k n),
      (Nat.leb_spec k (S n)); cbn; lia.
Qed.

Lemma grid_indicator kx ky nbx nby :
  (1 <= kx <= nbx)%nat -> (1 <= ky <= nby)%nat ->
  sum_nat (concat (map (fun j => map (fun i => if (kx =? S i) && (ky =? S j) then 1 else 0)%nat
                                     (seq 0 nbx))
                       (seq 0 nby))) = 1%nat.
Proof.
  intros Hx Hy. rewrite sum_nat_concat, map_map.
  rewrite (map_ext _ (fun j => if (ky =? S j) && true then 1 else 0)%nat).
  - rewrite indicator_sum.
    destruct (Nat.leb_spec 1 ky), (Nat.leb_spec ky nby); cbn; lia.
  - intros j. rewrite indicator_sum.
    destruct (Nat.leb_spec 1 kx), (Nat.leb_spec kx nbx); try lia.
    rewrite !andb_true_r. reflexivity.
Qed.

Lemma count_in_bin_cons xe ye p pts i j :
  count_in_bin xe ye (p :: pts) i j =
  ((if (bin_number xe (fst p) =? S i) && (bin_number ye (snd p) =? S j) then 1 else 0)
   + count_in_bin xe ye pts i j)%nat.
Proof.
  unfold count_in_bin. cbn [List.filter].
  destruct ((bin_number xe (fst p) =? S i) && (bin_number ye (snd p) =? S j)); reflexivity.
Qed.

(** Samples that are no outliers are counted once each. *)
Lemma counts_total xe ye pts nbx nby :
  (forall p, In p pts ->
     (1 <= bin_number xe (fst p) <= nbx)%nat /\ (1 <= bin_number ye (snd p) <= nby)%nat) ->
  sum_nat (concat (map (fun j => map (fun i => count_in_bin xe ye pts i j) (seq 0 nbx))
                       (seq 0 nby))) = length pts.
Proof.
  induction pts as [|p pts IH]; intros Hin.
  - rewrite sum_nat_concat, map_map.
    rewrite (map_ext _ (fun _ => 0%nat)).
    + induction (seq 0 nby); cbn; auto.
    + intros j. induction (seq 0 nbx); cbn; auto.
  - rewrite sum_nat_concat, map_map.
    rewrite (map_ext _ (fun j =>
               sum_nat (map (fun i => if (bin_number xe (fst p) =? S i)
                                         && (bin_number ye (snd p) =? S j)
                                      then 1 else 0) (seq 0 nbx))
               + sum_nat (map (fun i => count_in_bin xe ye pts i j) (seq 0 nbx)))%nat).
    2: { intros j. rewrite <- sum_nat_map_add. f_equal. apply map_ext.
         intros i. apply count_in_bin_cons. }
    rewrite sum_nat_map_add.
    pose proof (IH (fun q Hq => Hin q (or_intror Hq))) as IH'.
    rewrite sum_nat_concat, map_map in IH'. rewrite IH'.
    pose proof (grid_indicator (bin_number xe (fst p)) (bin_number ye (snd p)) nbx nby) as G.
    rewrite sum_nat_concat, map_map in G. rewrite G.
    + reflexivity.
    + apply Hin. now left.
    + apply Hin. now left.
Qed.

Lemma Qsum_grid (c : nat -> nat -> nat) nbx nby :
  (Qsum (concat (map (fun j => map (fun i => QofNat (c i j)) (seq 0 nbx)) (seq 0 nby)))
   == QofNat (sum_nat (concat (map (fun j => map (fun i => c i j) (seq 0 nbx)) (seq 0 nby)))))%Q.
Proof.
  rewrite <- Qsum_QofNat. rewrite concat_map, map_map.
  rewrite (map_ext (fun j => map QofNat (map (fun i => c i j) (seq 0 nbx)))
                   (fun j => map (fun i => QofNat (c i j)) (seq 0 nbx)))
    by (intros j; apply map_map).
  reflexivity.
Qed.

(** ** What follows from a run that returns *)

Lemma dwarf_filter_body_returns ra dec fwhm_small fwhm_big s f s' :
  dwarf_filter_body ra dec fwhm_small fwhm_big s = Ok f s' ->
  returns ra dec fwhm_small fwhm_big s f s'.
Proof.
  intros H. pose proof (dwarf_filter_body_wp ra dec fwhm_small fwhm_big s) as W.
  unfold wp in W. now rewrite H in W.
Qed.

Lemma dwarf_filter_body_valid ra dec fwhm_small fwhm_big s :
  valid_input ra dec ->
  exists f s', dwarf_filter_body ra dec fwhm_small fwhm_big s = Ok f s'.
Proof.
  intros Hv. pose proof (dwarf_filter_body_wp ra dec fwhm_small fwhm_big s) as W.
  unfold wp in W. destruct (dwarf_filter_body ra dec fwhm_small fwhm_big s) as [f s'|e s'].
  - now exists f, s'.
  - destruct W as [_ Hinv _ _]. contradiction.
Qed.


(** On valid input [dwarf_filter] returns: the buffers and values of its
    frame. *)
Lemma dwarf_filter_valid ra dec fwhm_small fwhm_big s :
  valid_input ra dec ->
  exists f s',
    dwarf_filter ra dec fwhm_small fwhm_big s
      = Ok (raw_hist f, extent f, delta f, clipped f, sigma f) s' /\
    returns ra dec fwhm_small fwhm_big s f s'.
Proof.
  intros Hv. destruct (dwarf_filter_body_valid ra dec fwhm_small fwhm_big s Hv) as (f & s' & E).
  exists f, s'. split; [ | now apply dwarf_filter_body_returns ].
  unfold dwarf_filter, bind. now rewrite E.
Qed.

Lemma returns_bins ra dec fwhm_small fwhm_big s f s' :
  returns ra dec fwhm_small fwhm_big s f s' ->
  nx f = bins_x ra dec /\ ny f = bins_y dec /\
  (1 <= Z.to_nat (nx f))%nat /\ (1 <= Z.to_nat (ny f))%nat.
Proof.
  intros R. destruct R.
  assert (Hx : nx f = bins_x ra dec).
  { rewrite ret_nx0, ret_xdiff_angular_arcmin0, ret_xdiff_angular0, ret_ymean0. reflexivity. }
  assert (Hy : ny f = bins_y dec).
  { rewrite ret_ny0, ret_ydiff_arcmin0. reflexivity. }
  destruct ret_valid0 as (_ & _ & _ & Bx & By).
  rewrite Hx, Hy. repeat split; lia.
Qed.

Lemma val_lookup s l a : heap s !! l = Some a -> val s l = a.
Proof. unfold val. now intros ->. Qed.

(** The buffers of the frame, each as a value computed from the counts. *)
Lemma returns_buffers ra dec fwhm_small fwhm_big s f s' :
  returns ra dec fwhm_small fwhm_big s f s' ->
  let nbx := Z.to_nat (nx f) in
  let nby := Z.to_nat (ny f) in
  let cnt := histogram_counts (xedges f) (yedges f) (combine ra dec) nbx nby in
  let H := transpose cnt in
  let B := convolve_values H (kernel_array (kernel_big f)) in
  let S := convolve_values H (kernel_array (kernel_small f)) in
  let D := zip_with (zip_with Qminus) S B in
  heap s' !! Counts f = Some cnt /\
  heap s' !! raw_hist f = Some H /\
  heap s' !! conv_big f = Some B /\
  heap s' !! conv_small f = Some S /\
  heap s' !! conv_delta f = Some D /\
  heap s' !! delta f = Some D /\
  heap s' !! clipped f = Some (floor_at (mean_of D) D) /\
  mean f = mean_of D.
Proof.
  intros R. destruct R. cbn zeta.
  rewrite (val_lookup _ _ _ ret_Counts0) in ret_raw_hist0.
  rewrite (val_lookup _ _ _ ret_raw_hist0) in ret_conv_big0, ret_conv_small0.
  rewrite (val_lookup _ _ _ ret_conv_big0), (val_lookup _ _ _ ret_conv_small0)
    in ret_conv_delta0.
  rewrite (val_lookup _ _ _ ret_conv_delta0) in ret_delta0.
  rewrite (val_lookup _ _ _ ret_delta0) in ret_mean0, ret_clipped0.
  rewrite ret_floor0, ret_mean0 in ret_clipped0.
  repeat split; assumption.
Qed.

Lemma returns_shapes ra dec fwhm_small fwhm_big s f s' :
  returns ra dec fwhm_small fwhm_big s f s' ->
  let nbx := Z.to_nat (nx f) in
  let nby := Z.to_nat (ny f) in
  let cnt := histogram_counts (xedges f) (yedges f) (combine ra dec) nbx nby in
  let H := transpose cnt in
  let B := convolve_values H (kernel_array (kernel_big f)) in
  let S := convolve_values H (kernel_array (kernel_small f)) in
  let D := zip_with (zip_with Qminus) S B in
  has_shape cnt nbx nby /\ has_shape H nby nbx /\ has_shape B nby nbx /\
  has_shape S nby nbx /\ has_shape D nby nbx /\
  has_shape (floor_at (mean_of D) D) nby nbx.
Proof.
  intros R. destruct (returns_bins _ _ _ _ _ _ _ R) as (_ & _ & Hx & Hy). cbn zeta.
  set (nbx := Z.to_nat (nx f)) in *. set (nby := Z.to_nat (ny f)) in *.
  set (cnt := histogram_counts _ _ _ _ _).
  assert (Hcnt : has_shape cnt nbx nby) by apply has_shape_map_seq.
  assert (HH : has_shape (transpose cnt) nby nbx).
  { unfold cnt. rewrite transpose_histogram_counts by exact Hx. apply has_shape_map_seq. }
  set (H := transpose cnt) in *.
  assert (HB : has_shape (convolve_values H (kernel_array (kernel_big f))) nby nbx).
  { eapply has_shape_eq; [ apply convolve_shape | exact HH ]. }
  assert (HS : has_shape (convolve_values H (kernel_array (kernel_small f))) nby nbx).
  { eapply has_shape_eq; [ apply convolve_shape | exact HH ]. }
  set (B := convolve_values H (kernel_array (kernel_big f))) in *.
  set (S := convolve_values H (kernel_array (kernel_small f))) in *.
  assert (HD : has_shape (zip_with (zip_with Qminus) S B) nby nbx).
  { eapply has_shape_eq; [ apply map_length_zip_with | exact HS ].
    unfold has_shape in HS, HB. congruence. }
  repeat split; try assumption.
  rewrite floor_at_map. eapply has_shape_eq; [ apply map_length_map_map | exact HD ].
Qed.

(** ** The filtered and the clipped field *)

(** C4. On every valid input [dwarf_filter] returns, and the filtered
    field it returns is, element by element, the histogram convolved with
    the small kernel minus the histogram convolved with the big kernel, in
    that order, and it has the shape of the histogram. *)
Theorem filtered_field_is_small_minus_big ra dec fwhm_small fwhm_big s :
  valid_input ra dec ->
  exists raw ext d c sg s',
    dwarf_filter ra dec fwhm_small fwhm_big s = Ok (raw, ext, d, c, sg) s' /\
      exists (H S B D : array2) (rows cols : nat),
      heap s' !! raw = Some H /\ heap s' !! d = Some D /\
      S = convolve_values H (kernel_array (Gaussian2DKernel (fwhm_small / 2.35) 1)) /\
      B = convolve_values H (kernel_array (Gaussian2DKernel (fwhm_big / 2.35) 1)) /\
      has_shape H rows cols /\ has_shape D rows cols /\ shape D = shape H /\
      forall i j, (i < rows)%nat -> (j < cols)%nat ->
        item2 D i j = (item2 S i j - item2 B i j)%Q.
Proof.
  intros Hv. destruct (dwarf_filter_valid ra dec fwhm_small fwhm_big s Hv) as (f & s' & Hrun & R).
  exists (raw_hist f), (extent f), (delta f), (clipped f), (sigma f), s'.
  split; [ exact Hrun | ].
  destruct (returns_buffers _ _ _ _ _ _ _ R) as (_ & HH & _ & _ & _ & HD & _).
  destruct (returns_shapes _ _ _ _ _ _ _ R) as (_ & SH & SB & SS & SD & _).
  destruct (returns_bins _ _ _ _ _ _ _ R) as (_ & _ & Hx & Hy).
  rewrite (ret_kernel_small _ _ _ _ _ _ _ R) in *.
  rewrite (ret_kernel_big _ _ _ _ _ _ _ R) in *.
  eexists _, _, _, _, (Z.to_nat (ny f)), (Z.to_nat (nx f)).
  split; [ exact HH | ]. split; [ exact HD | ].
  split; [ reflexivity | ]. split; [ reflexivity | ].
  split; [ exact SH | ]. split; [ exact SD | ].
  split.
  - now rewrite (has_shape_shape _ _ _ SD Hy), (has_shape_shape _ _ _ SH Hy).
  - intros i j Hi Hj. now apply (item2_zip_with Qminus _ _ _ _ i j SS SB).
Qed.

(** C5. On every valid input [dwarf_filter] returns, and the clipped
    field it returns is the filtered field with each entry below the
    filtered field's own mean replaced by that mean, and each entry at or
    above the mean kept. *)
Theorem clipped_field_floors_at_mean ra dec fwhm_small fwhm_big s :
  valid_input ra dec ->
  exists raw ext d c sg s',
    dwarf_filter ra dec fwhm_small fwhm_big s = Ok (raw, ext, d, c, sg) s' /\
      exists (D C : array2) (rows cols : nat),
      heap s' !! d = Some D /\ heap s' !! c = Some C /\
      has_shape D rows cols /\ has_shape C rows cols /\
      forall i j, (i < rows)%nat -> (j < cols)%nat ->
        ((item2 D i j < mean_of D)%Q -> item2 C i j = mean_of D) /\
        ((mean_of D <= item2 D i j)%Q -> item2 C i j = item2 D i j).
Proof.
  intros Hv. destruct (dwarf_filter_valid ra dec fwhm_small fwhm_big s Hv) as (f & s' & Hrun & R).
  exists (raw_hist f), (extent f), (delta f), (clipped f), (sigma f), s'.
  split; [ exact Hrun | ].
  destruct (returns_buffers _ _ _ _ _ _ _ R) as (_ & _ & _ & _ & _ & HD & HC & _).
  destruct (returns_shapes _ _ _ _ _ _ _ R) as (_ & _ & _ & _ & SD & SC).
  eexists _, _, (Z.to_nat (ny f)), (Z.to_nat (nx f)).
  split; [ exact HD | ]. split; [ exact HC | ].
  split; [ exact SD | ]. split; [ exact SC | ].
  intros i j Hi Hj. rewrite floor_at_map.
  rewrite (item2_map_map _ _ _ _ i j SD Hi Hj).
  split; intros Hcmp.
  - apply Qltb_lt in Hcmp. now rewrite Hcmp.
  - apply Qltb_ge in Hcmp. now rewrite Hcmp.
Qed.

(** C9. The flooring writes to the clipped field's buffer alone: on
    every valid input the filtered and the clipped field are returned as
    two buffers, the filtered one still holds the difference of the two
    convolutions, below-mean values included, and a later write to either
    buffer leaves the other as it is. *)
Theorem flooring_leaves_filtered_field ra dec fwhm_small fwhm_big s :
  valid_input ra dec ->
  exists raw ext d c sg s',
    dwarf_filter ra dec fwhm_small fwhm_big s = Ok (raw, ext, d, c, sg) s' /\
      d <> c /\
    (exists H D : array2,
       heap s' !! raw = Some H /\ heap s' !! d = Some D /\
       D = zip_with (zip_with Qminus)
             (convolve_values H (kernel_array (Gaussian2DKernel (fwhm_small / 2.35) 1)))
             (convolve_values H (kernel_array (Gaussian2DKernel (fwhm_big / 2.35) 1))) /\
       heap s' !! c = Some (floor_at (mean_of D) D)) /\
    (forall a s'', store c a s' = Ok tt s'' -> heap s'' !! d = heap s' !! d) /\
    (forall a s'', store d a s' = Ok tt s'' -> heap s'' !! c = heap s' !! c).
Proof.
  intros Hv. destruct (dwarf_filter_valid ra dec fwhm_small fwhm_big s Hv) as (f & s' & Hrun & R).
  exists (raw_hist f), (extent f), (delta f), (clipped f), (sigma f), s'.
  split; [ exact Hrun | ].
  destruct (returns_buffers _ _ _ _ _ _ _ R) as (_ & HH & _ & _ & _ & HD & HC & _).
  rewrite (ret_kernel_small _ _ _ _ _ _ _ R) in *.
  rewrite (ret_kernel_big _ _ _ _ _ _ _ R) in *.
  assert (Hne : delta f <> clipped f).
  { pose proof (ret_distinct _ _ _ _ _ _ _ R) as ND. unfold new_buffers in ND.
    do 5 apply List.NoDup_cons_iff, proj2 in ND.
    apply List.NoDup_cons_iff, proj1 in ND. intros E. apply ND. rewrite E. now left. }
  split; [ exact Hne | ].
  split; [ eexists _, _; repeat split; eassumption | ].
  split; intros a s'' Hst; unfold store in Hst.
  - rewrite HC in Hst. injection Hst as <-. cbn [heap set_heap].
    apply lookup_insert_ne. congruence.
  - rewrite HD in Hst. injection Hst as <-. cbn [heap set_heap].
    apply lookup_insert_ne. congruence.
Qed.

(** C10. On every valid input the three arrays [dwarf_filter] returns
    have one shape, [ny] rows of [nx] columns: the transpose of the [nx]
    by [ny] counts of [histogram2d], so the row is the declination bin and
    the column the right-ascension bin. *)
Theorem returned_arrays_are_dec_by_ra ra dec fwhm_small fwhm_big s :
  valid_input ra dec ->
  exists raw ext d c sg s',
    dwarf_filter ra dec fwhm_small fwhm_big s = Ok (raw, ext, d, c, sg) s' /\
      exists (cnt H D C : array2) (xe ye : array1),
      cnt = histogram_counts xe ye (combine ra dec)
              (Z.to_nat (bins_x ra dec)) (Z.to_nat (bins_y dec)) /\
      has_shape cnt (Z.to_nat (bins_x ra dec)) (Z.to_nat (bins_y dec)) /\
      heap s' !! raw = Some H /\ heap s' !! d = Some D /\ heap s' !! c = Some C /\
      H = transpose cnt /\
      has_shape H (Z.to_nat (bins_y dec)) (Z.to_nat (bins_x ra dec)) /\
      has_shape D (Z.to_nat (bins_y dec)) (Z.to_nat (bins_x ra dec)) /\
      has_shape C (Z.to_nat (bins_y dec)) (Z.to_nat (bins_x ra dec)) /\
      shape H = (Z.to_nat (bins_y dec), Z.to_nat (bins_x ra dec)) /\
      shape D = shape H /\ shape C = shape H /\
      forall i j, (i < Z.to_nat (bins_x ra dec))%nat -> (j < Z.to_nat (bins_y dec))%nat ->
        item2 H j i = item2 cnt i j.
Proof.
  intros Hv. destruct (dwarf_filter_valid ra dec fwhm_small fwhm_big s Hv) as (f & s' & Hrun & R).
  exists (raw_hist f), (extent f), (delta f), (clipped f), (sigma f), s'.
  split; [ exact Hrun | ].
  destruct (returns_buffers _ _ _ _ _ _ _ R) as (_ & HH & _ & _ & _ & HD & HC & _).
  destruct (returns_shapes _ _ _ _ _ _ _ R) as (Scnt & SH & _ & _ & SD & SC).
  destruct (returns_bins _ _ _ _ _ _ _ R) as (Ex & Ey & Hx & Hy).
  rewrite Ex, Ey in *.
  eexists _, _, _, _, (xedges f), (yedges f).
  split; [ reflexivity | ]. split; [ exact Scnt | ].
  split; [ exact HH | ]. split; [ exact HD | ]. split; [ exact HC | ].
  split; [ reflexivity | ].
  split; [ exact SH | ]. split; [ exact SD | ]. split; [ exact SC | ].
  rewrite (has_shape_shape _ _ _ SH Hy), (has_shape_shape _ _ _ SD Hy),
    (has_shape_shape _ _ _ SC Hy).
  repeat split.
  intros i j Hi Hj. now apply item2_transposed_counts.
Qed.

(** ** The histogram *)

Lemma np_rint_zero q : (q == 0)%Q -> np_rint q = 0%Z.
Proof.
  intros E. unfold np_rint.
  pose proof (Qfloor_comp q 0%Q E) as F. change (Qfloor 0) with 0%Z in F.
  cbv zeta. rewrite F.
  assert (C : (q - inject_Z 0 ?= 1 # 2)%Q = Lt).
  { apply Qlt_alt. rewrite E. reflexivity. }
  rewrite C. reflexivity.
Qed.

Lemma bins_y_extent dec : (1 <= bins_y dec)%Z -> ~ (amin dec == amax dec)%Q.
Proof.
  intros H E. unfold bins_y in H.
  rewrite np_rint_zero in H by (rewrite E; ring).
  change (astype_int 0) with 0%Z in H. lia.
Qed.

Lemma bins_x_extent ra dec : (1 <= bins_x ra dec)%Z -> ~ (amin ra == amax ra)%Q.
Proof.
  intros H E. unfold bins_x in H.
  rewrite np_rint_zero in H by (rewrite E; ring).
  change (astype_int 0) with 0%Z in H. lia.
Qed.

(** The edges of a run that returns: equal steps from the least to the
    greatest coordinate, in ascending order. *)
Lemma returns_edges ra dec fwhm_small fwhm_big s f s' :
  returns ra dec fwhm_small fwhm_big s f s' ->
  xedges f = linspace (amin ra) (amax ra) (Z.to_nat (nx f) + 1) /\
  yedges f = linspace (amin dec) (amax dec) (Z.to_nat (ny f) + 1) /\
  ascending (xedges f) /\ ascending (yedges f) /\
  length (xedges f) = (Z.to_nat (nx f) + 1)%nat /\
  length (yedges f) = (Z.to_nat (ny f) + 1)%nat.
Proof.
  intros R. destruct (returns_bins _ _ _ _ _ _ _ R) as (Ex & Ey & Hx & Hy).
  pose proof (ret_valid _ _ _ _ _ _ _ R) as (Hra & Hdec & _ & Bx & By).
  rewrite (ret_xedges _ _ _ _ _ _ _ R), (ret_yedges _ _ _ _ _ _ _ R).
  pose proof (outer_edges_lt ra) as Lx. pose proof (outer_edges_lt dec) as Ly.
  rewrite (outer_edges_data ra Hra (bins_x_extent _ _ Bx)) in *.
  rewrite (outer_edges_data dec Hdec (bins_y_extent _ By)) in *.
  cbn [fst snd] in *.
  repeat split; try reflexivity.
  - now apply linspace_ascending.
  - now apply linspace_ascending.
  - now apply length_linspace.
  - now apply length_linspace.
Qed.

(** The extent of a run that returns: the least and the greatest
    coordinate along each axis, which differ. *)
Lemma returns_extent ra dec fwhm_small fwhm_big s f s' :
  returns ra dec fwhm_small fwhm_big s f s' ->
  exists x0 y0,
    extent f = [x0; amax ra; y0; amax dec] /\
    (x0 == amin ra)%Q /\ (y0 == amin dec)%Q /\
    (amin ra < amax ra)%Q /\ (amin dec < amax dec)%Q.
Proof.
  intros R. destruct (returns_bins _ _ _ _ _ _ _ R) as (_ & _ & Hx & Hy).
  destruct (returns_edges _ _ _ _ _ _ _ R) as (Xe & Ye & _).
  pose proof (ret_valid _ _ _ _ _ _ _ R) as (Hra & Hdec & _ & Bx & By).
  destruct (ret_extent _ _ _ _ _ _ _ R) as (x0 & Hx0 & y0 & Hy0 & E).
  rewrite Xe in Hx0, E. rewrite Ye in Hy0, E.
  rewrite linspace_first in Hx0 by exact Hx. rewrite linspace_first in Hy0 by exact Hy.
  rewrite !linspace_last in E by assumption.
  injection Hx0 as <-. injection Hy0 as <-.
  eexists _, _. split; [ exact E | ].
  change (QofNat 0) with 0%Q.
  split; [ ring | ]. split; [ ring | ]. split.
  - pose proof (outer_edges_lt ra) as W.
    now rewrite (outer_edges_data ra Hra (bins_x_extent _ _ Bx)) in W.
  - pose proof (outer_edges_lt dec) as W.
    now rewrite (outer_edges_data dec Hdec (bins_y_extent _ By)) in W.
Qed.

Lemma linspace_encloses start stop n v :
  (1 <= n)%nat -> (start < stop)%Q -> (start <= v <= stop)%Q ->
  (1 <= bin_number (linspace start stop (n + 1)) v <= n)%nat.
Proof.
  intros Hn Hlt Hv.
  apply (bin_number_range _ n v
           (QofNat 0 * ((stop - start) / QofNat n) + start)%Q stop).
  - now apply linspace_ascending.
  - now apply length_linspace.
  - exact Hn.
  - now apply linspace_first.
  - now apply linspace_nth_last.
  - change (QofNat 0) with 0%Q. lra.
Qed.

(** C6. On every valid input [dwarf_filter] returns, each bin of the
    histogram it returns counts the input points that fall in it, row by
    declination bin and column by right-ascension bin, and the bins add up
    to the number of input points. *)
Theorem histogram_counts_the_points ra dec fwhm_small fwhm_big s :
  valid_input ra dec ->
  exists raw ext d c sg s',
    dwarf_filter ra dec fwhm_small fwhm_big s = Ok (raw, ext, d, c, sg) s' /\
    exists (H : array2) (xe ye : array1),
      heap s' !! raw = Some H /\
      xe = linspace (amin ra) (amax ra) (Z.to_nat (bins_x ra dec) + 1) /\
      ye = linspace (amin dec) (amax dec) (Z.to_nat (bins_y dec) + 1) /\
      has_shape H (Z.to_nat (bins_y dec)) (Z.to_nat (bins_x ra dec)) /\
      (forall i j, (i < Z.to_nat (bins_x ra dec))%nat -> (j < Z.to_nat (bins_y dec))%nat ->
         item2 H j i =
         QofNat (length (List.filter
                           (fun p => in_binb xe (Z.to_nat (bins_x ra dec)) i (fst p)
                                     && in_binb ye (Z.to_nat (bins_y dec)) j (snd p))
                           (combine ra dec)))) /\
      (Qsum (concat H) == QofNat (length ra))%Q.
Proof.
  intros Hv. destruct (dwarf_filter_valid ra dec fwhm_small fwhm_big s Hv) as (f & s' & Hrun & R).
  exists (raw_hist f), (extent f), (delta f), (clipped f), (sigma f), s'.
  split; [ exact Hrun | ].
  destruct (returns_buffers _ _ _ _ _ _ _ R) as (_ & HH & _).
  destruct (returns_shapes _ _ _ _ _ _ _ R) as (_ & SH & _).
  destruct (returns_bins _ _ _ _ _ _ _ R) as (Ex & Ey & Hx & Hy).
  destruct (returns_edges _ _ _ _ _ _ _ R) as (Xe & Ye & Ax & Ay & Lx & Ly).
  pose proof (ret_valid _ _ _ _ _ _ _ R) as (Hra & Hdec & Hlen & Bx & By).
  assert (Wx : (amin ra < amax ra)%Q).
  { pose proof (outer_edges_lt ra) as L.
    now rewrite (outer_edges_data ra Hra (bins_x_extent _ _ Bx)) in L. }
  assert (Wy : (amin dec < amax dec)%Q).
  { pose proof (outer_edges_lt dec) as L.
    now rewrite (outer_edges_data dec Hdec (bins_y_extent _ By)) in L. }
  rewrite Ex, Ey in *. rewrite Xe in Ax, Lx. rewrite Ye in Ay, Ly. rewrite Xe, Ye in *.
  set (nbx := Z.to_nat (bins_x ra dec)) in *. set (nby := Z.to_nat (bins_y dec)) in *.
  set (xe := linspace (amin ra) (amax ra) (nbx + 1)) in *.
  set (ye := linspace (amin dec) (amax dec) (nby + 1)) in *.
  exists (transpose (histogram_counts xe ye (combine ra dec) nbx nby)), xe, ye.
  split; [ exact HH | ]. split; [ reflexivity | ]. split; [ reflexivity | ].
  split; [ exact SH | ]. split.
  - intros i j Hi Hj. rewrite item2_transposed_counts, item2_histogram_counts by assumption.
    unfold count_in_bin. f_equal. f_equal. apply List.filter_ext. intros p.
    now rewrite (bin_number_in_binb xe nbx i) , (bin_number_in_binb ye nby j).
  - rewrite transpose_histogram_counts by exact Hx.
    rewrite Qsum_grid, counts_total.
    + now rewrite length_combine, <- Hlen, Nat.min_id.
    + intros [px py] Hp. cbn [fst snd]. split.
      * apply linspace_encloses; [ exact Hx | exact Wx | ].
        apply in_combine_l in Hp. split; [ now apply amin_le | now apply amax_ge ].
      * apply linspace_encloses; [ exact Hy | exact Wy | ].
        apply in_combine_r in Hp. split; [ now apply amin_le | now apply amax_ge ].
Qed.

(** ** Input that is not valid *)

(** A run on input that is not valid ends in numpy's [ValueError]: nothing
    of astropy is needed to see it. *)
Lemma dwarf_filter_body_invalid ra dec fwhm_small fwhm_big s :
  ~ valid_input ra dec ->
  wp (dwarf_filter_body ra dec fwhm_small fwhm_big) (fun _ _ => False) (rejects ra dec s) s.
Proof.
  intros Hinv. unfold dwarf_filter_body.
  apply wp_bind, wp_print.
  set (s1 := {| heap := heap s; stdout := _ |}).
  assert (Hrej : forall msg, rejects ra dec s (ValueError msg) s1).
  { intros msg. split; [ reflexivity | exact Hinv | reflexivity | reflexivity ]. }
  apply wp_bind, wp_ndarray_min; [ intros _; apply Hrej | intros Hdec ].
  do 3 known_nonempty Hdec.
  apply wp_bind, wp_ndarray_max; [ intros _; apply Hrej | intros Hra ].
  do 5 known_nonempty Hra.
  cbn zeta. fold (bins_y dec). fold (bins_x ra dec).
  apply wp_bind, wp_histogram2d; [ intros _ msg; apply Hrej | ].
  intros Hlen Hnx Hny. exfalso. apply Hinv. repeat split; assumption.
Qed.

Lemma Qmin_diag d : Qmin d d = d.
Proof. unfold Qmin, GenericMinMax.gmin. now destruct (d ?= d)%Q. Qed.

Lemma Qmax_diag d : Qmax d d = d.
Proof. unfold Qmax, GenericMinMax.gmax. now destruct (d ?= d)%Q. Qed.

Lemma amin_repeat d n : amin (repeat d (S n)) = d.
Proof.
  cbn [repeat amin]. induction n as [|n IH]; cbn [repeat fold_left]; [ reflexivity | ].
  now rewrite Qmin_diag.
Qed.

Lemma amax_repeat d n : amax (repeat d (S n)) = d.
Proof.
  cbn [repeat amax]. induction n as [|n IH]; cbn [repeat fold_left]; [ reflexivity | ].
  now rewrite Qmax_diag.
Qed.

(** Identical points span no bin. *)
Lemma bins_y_repeat d n : bins_y (repeat d (S n)) = 0%Z.
Proof.
  unfold bins_y. rewrite amin_repeat, amax_repeat.
  rewrite np_rint_zero by ring. reflexivity.
Qed.

(** C1, as the code has it.  [dwarf_filter] validates nothing itself and
    raises no [InvalidInputError]: when [ra] or [dec] is empty, when their
    lengths differ, or when either bin count is below one, and so for
    every point set whose points are all identical, the call ends in
    numpy's [ValueError], after the first line was printed, with no array
    allocated and no result returned. *)
Theorem dwarf_filter_rejects_with_ValueError ra dec fwhm_small fwhm_big s :
  ra = [] \/ dec = [] \/ length ra <> length dec \/
  (bins_x ra dec < 1)%Z \/ (bins_y dec < 1)%Z \/
  (exists a d n, ra = repeat a n /\ dec = repeat d n) ->
  exists e s',
    dwarf_filter ra dec fwhm_small fwhm_big s = Raise e s' /\
    exc_type e = "ValueError" /\
    heap s' = heap s /\
    stdout s' = stdout s ++ [OutStr "Computing differential convolution .... "].
Proof.
  intros Hbad.
  assert (Hinv : ~ valid_input ra dec).
  { intros (Hra & Hdec & Hlen & Hx & Hy).
    destruct Hbad as [E|[E|[E|[E|[E|(a & d & n & Ea & Ed)]]]]]; try contradiction; try lia.
    destruct n as [|n]; [ now apply Hra | ].
    rewrite Ed, bins_y_repeat in Hy. lia. }
  pose proof (dwarf_filter_body_invalid ra dec fwhm_small fwhm_big s Hinv) as W.
  unfold wp in W. unfold dwarf_filter, bind.
  destruct (dwarf_filter_body ra dec fwhm_small fwhm_big s) as [f s'|e s']; [ contradiction | ].
  destruct W as [Ht _ Hh Ho]. exists e, s'. repeat split; assumption.
Qed.

(** ** The kernels and the declination of the correction *)

(** C2, as the code has it.  On every valid input the call returns, the
    standard deviations of its two Gaussian kernels are
    [fwhm_small / 2.35] and [fwhm_big / 2.35], the constant rounded to
    three digits, and the two smoothed arrays are the convolutions of the
    histogram with these kernels. *)
Theorem kernel_stddev_is_fwhm_over_2_35 ra dec fwhm_small fwhm_big s :
  valid_input ra dec ->
  exists f s',
    dwarf_filter_body ra dec fwhm_small fwhm_big s = Ok f s' /\
    x_stddev (kernel_small f) = (fwhm_small / 2.35)%Q /\
    x_stddev (kernel_big f) = (fwhm_big / 2.35)%Q /\
    heap s' !! conv_small f =
      Some (convolve_values (val s' (raw_hist f))
                            (Gaussian2D_discretize (x_stddev (kernel_small f)) 1)) /\
    heap s' !! conv_big f =
      Some (convolve_values (val s' (raw_hist f))
                            (Gaussian2D_discretize (x_stddev (kernel_big f)) 1)).
Proof.
  intros Hv. destruct (dwarf_filter_body_valid ra dec fwhm_small fwhm_big s Hv) as (f & s' & E).
  exists f, s'. split; [ exact E | ].
  pose proof (dwarf_filter_body_returns _ _ _ _ _ _ _ E) as Hrun.
  pose proof (ret_conv_small _ _ _ _ _ _ _ Hrun) as Hs.
  pose proof (ret_conv_big _ _ _ _ _ _ _ Hrun) as Hb.
  rewrite (ret_kernel_small _ _ _ _ _ _ _ Hrun) in *.
  rewrite (ret_kernel_big _ _ _ _ _ _ _ Hrun) in *.
  repeat split; assumption.
Qed.

(** C3, as the code has it.  On every valid input the call returns, the
    declination of the [cos] correction of the right-ascension extent is
    [ymean], the midpoint of the declination range (least plus greatest,
    halved), and the number of right-ascension bins is the corrected
    extent in arcminutes, rounded. *)
Theorem cos_correction_uses_mid_declination ra dec fwhm_small fwhm_big s :
  valid_input ra dec ->
  exists f s',
    dwarf_filter_body ra dec fwhm_small fwhm_big s = Ok f s' /\
    ymean f = ((amin dec + amax dec) / 2)%Q /\
    xdiff_angular f = ((amax ra - amin ra) * np_cos (ymean f * (np_pi / 180)))%Q /\
    nx f = astype_int (np_rint (xdiff_angular f * 60)).
Proof.
  intros Hv. destruct (dwarf_filter_body_valid ra dec fwhm_small fwhm_big s Hv) as (f & s' & E).
  exists f, s'. split; [ exact E | ].
  pose proof (dwarf_filter_body_returns _ _ _ _ _ _ _ E) as Hrun.
  split; [ apply (ret_ymean _ _ _ _ _ _ _ Hrun) | ].
  split; [ apply (ret_xdiff_angular _ _ _ _ _ _ _ Hrun) | ].
  rewrite (ret_nx _ _ _ _ _ _ _ Hrun). f_equal. f_equal.
  apply (ret_xdiff_angular_arcmin _ _ _ _ _ _ _ Hrun).
Qed.

(** ** The peaks and their sky coordinates *)

Lemma getitem_nth a i q :
  (0 <= i)%Z -> nth_error a (Z.to_nat i) = Some q -> getitem a i = ret q.
Proof.
  intros Hi Hq. unfold getitem.
  assert (Hlt : (Z.to_nat i < length a)%nat) by (apply nth_error_Some; congruence).
  destruct (Z.ltb_spec i 0) as [H|_]; [ lia | ].
  assert (Hc : ((0 <=? i) && (i <? Z.of_nat (length a)))%Z = true).
  { apply andb_true_intro. split; [ apply Z.leb_le | apply Z.ltb_lt ]; lia. }
  now rewrite Hc, Hq.
Qed.

Lemma take_arange start step n idx :
  Forall (fun i => (0 <= i < Z.of_nat n)%Z) idx ->
  take (map (fun k => (start + QofNat k * step)%Q) (seq 0 n)) idx =
  ret (map (fun i => (start + QofNat (Z.to_nat i) * step)%Q) idx).
Proof.
  unfold take. induction 1 as [|i idx Hi _ IH]; [ reflexivity | ].
  cbn [mapM map]. rewrite IH.
  rewrite (getitem_nth _ i (start + QofNat (Z.to_nat i) * step)%Q).
  - reflexivity.
  - lia.
  - rewrite nth_error_map, nth_error_seq.
    destruct (Nat.ltb_spec (Z.to_nat i) n); [ reflexivity | lia ].
Qed.

(** The vector of step positions: [n + 1] of them along [n] steps from
    [start] to [stop]. *)
Lemma arange_steps start stop n :
  (1 <= n)%nat -> (start < stop)%Q ->
  np_arange start (stop + (stop - start) / QofNat n) ((stop - start) / QofNat n) =
  ret (map (fun k => (start + QofNat k * ((stop - start) / QofNat n))%Q) (seq 0 (n + 1))).
Proof.
  intros Hn Hlt. unfold np_arange.
  pose proof (QofNat_pos n Hn) as Hpos.
  assert (Hstep : (0 < (stop - start) / QofNat n)%Q).
  { apply Qlt_shift_div_l; [ exact Hpos | lra ]. }
  assert (E0 : Qeq_bool ((stop - start) / QofNat n) 0 = false).
  { destruct (Qeq_bool _ 0) eqn:E; [ | reflexivity ]. apply Qeq_bool_eq in E. lra. }
  rewrite E0.
  assert (Ec : Qceiling ((stop + (stop - start) / QofNat n - start) / ((stop - start) / QofNat n))
               = Z.of_nat (n + 1)).
  { rewrite <- (Qceiling_Z (Z.of_nat (n + 1))). apply Qceiling_comp.
    rewrite Nat2Z.inj_add, inject_Z_plus. fold (QofNat n). change (inject_Z (Z.of_nat 1)) with 1%Q.
    field. split; lra. }
  now rewrite Ec, Nat2Z.id.
Qed.

(** Position [i] of [n] steps from [lo] to [hi] lies between the two. *)
Lemma step_position_bounds lo hi n i :
  (1 <= n)%nat -> (lo < hi)%Q -> (0 <= i < Z.of_nat n)%Z ->
  (lo + QofNat (Z.to_nat i) * ((hi - lo) / QofNat n) == lo + inject_Z i * (hi - lo) / QofNat n)%Q /\
  (lo <= lo + QofNat (Z.to_nat i) * ((hi - lo) / QofNat n) <= hi)%Q.
Proof.
  intros Hn Hlt Hi.
  pose proof (QofNat_pos n Hn) as Hpos.
  assert (Ei : QofNat (Z.to_nat i) = inject_Z i) by (unfold QofNat; now rewrite Z2Nat.id by lia).
  rewrite Ei.
  assert (Hstep : (0 < (hi - lo) / QofNat n)%Q).
  { apply Qlt_shift_div_l; [ exact Hpos | lra ]. }
  assert (Hi0 : (0 <= inject_Z i)%Q) by (change 0%Q with (inject_Z 0); rewrite <- Zle_Qle; lia).
  assert (Hin : (inject_Z i <= QofNat n)%Q) by (unfold QofNat; rewrite <- Zle_Qle; lia).
  split; [ field; lra | ]. split.
  - assert (0 <= inject_Z i * ((hi - lo) / QofNat n))%Q by (apply Qmult_le_0_compat; lra).
    lra.
  - assert (E : (hi == lo + QofNat n * ((hi - lo) / QofNat n))%Q) by (field; lra).
    assert (L : (inject_Z i * ((hi - lo) / QofNat n) <= QofNat n * ((hi - lo) / QofNat n))%Q)
      by (apply Qmult_le_compat_r; lra).
    rewrite E at 2. now apply Qplus_le_r.
Qed.

(** C7. For a table of peaks inside the field, the cell adds to each peak
    the coordinate [lo + i * (hi - lo) / N] in either axis, [i] the peak's
    pixel index, [N] the number of columns (right ascension) or rows
    (declination) of the field and [lo], [hi] the bounds of the extent;
    that coordinate lies between [lo] and [hi]. *)
Theorem peak_coordinates_are_linear clipped ext tbl s C x_lo x_hi y_lo y_hi xs ys nrows ncols :
  heap s !! clipped = Some C ->
  shape C = (nrows, ncols) -> (1 <= nrows)%nat -> (1 <= ncols)%nat ->
  ext = [x_lo; x_hi; y_lo; y_hi] -> (x_lo < x_hi)%Q -> (y_lo < y_hi)%Q ->
  tbl !! "x_peak" = Some (IntCol xs) -> tbl !! "y_peak" = Some (IntCol ys) ->
  Forall (fun i => (0 <= i < Z.of_nat ncols)%Z) xs ->
  Forall (fun j => (0 <= j < Z.of_nat nrows)%Z) ys ->
  exists ras decs,
    add_ra_dec clipped ext tbl s
      = Ok (<["dec" := FloatCol decs]> (<["ra" := FloatCol ras]> tbl)) s /\
    Forall2 (fun i r => (r == x_lo + inject_Z i * (x_hi - x_lo) / QofNat ncols)%Q /\
                        (x_lo <= r <= x_hi)%Q) xs ras /\
    Forall2 (fun j d => (d == y_lo + inject_Z j * (y_hi - y_lo) / QofNat nrows)%Q /\
                        (y_lo <= d <= y_hi)%Q) ys decs.
Proof.
  intros HC Hshape Hr Hc -> Hx Hy Htx Hty Hxs Hys.
  exists (map (fun i => (x_lo + QofNat (Z.to_nat i) * ((x_hi - x_lo) / QofNat ncols))%Q) xs),
         (map (fun j => (y_lo + QofNat (Z.to_nat j) * ((y_hi - y_lo) / QofNat nrows))%Q) ys).
  split; [ | split ].
  - unfold add_ra_dec. cbn [firstn skipn unpack2]. unfold bind at 1. cbn [ret fst snd].
    unfold bind at 1, load at 1. rewrite HC, Hshape. cbn [fst snd].
    rewrite (arange_steps x_lo x_hi ncols Hc Hx). unfold bind at 1. cbn [ret].
    unfold bind at 1. cbn [ret fst snd].
    unfold bind at 1, load at 1. rewrite HC, Hshape. cbn [fst snd].
    rewrite (arange_steps y_lo y_hi nrows Hr Hy). unfold bind at 1. cbn [ret].
    unfold bind at 1, table_ints at 1. rewrite Htx. cbn [ret].
    rewrite take_arange by (eapply Forall_impl; [ exact Hxs | cbn; intros; lia ]).
    unfold bind at 1. cbn [ret].
    unfold bind at 1, table_ints at 1.
    rewrite lookup_insert_ne by discriminate. rewrite Hty. cbn [ret].
    rewrite take_arange by (eapply Forall_impl; [ exact Hys | cbn; intros; lia ]).
    reflexivity.
  - apply Forall2_fmap_r, Forall_Forall2_diag.
    eapply Forall_impl; [ exact Hxs | ]. intros i Hi.
    now apply step_position_bounds.
  - apply Forall2_fmap_r, Forall_Forall2_diag.
    eapply Forall_impl; [ exact Hys | ]. intros j Hj.
    now apply step_position_bounds.
Qed.

Lemma cells_values field r c v :
  In (r, c, v) (cells field) -> exists row, In row field /\ In v row.
Proof.
  unfold cells. intros H. apply in_concat in H as (l & Hl & Hv).
  apply list_elem_of_In, elem_of_lookup_imap_1 in Hl as (i & row & -> & Hrow).
  apply list_elem_of_In, elem_of_lookup_imap_1 in Hv as (j & w & E & Hw).
  injection E as _ _ ->.
  exists row. split; apply list_elem_of_In; eapply list_elem_of_lookup_2; eassumption.
Qed.

Lemma filter_none {A} (f : A -> bool) l :
  (forall x, In x l -> f x = false) -> List.filter f l = [].
Proof.
  induction l as [|a l IH]; intros H; [ reflexivity | ].
  cbn [List.filter]. rewrite (H a) by now left.
  apply IH. intros x Hx. apply H. now right.
Qed.

(** C8. When no cell of the field exceeds the threshold, [find_peaks]
    raises nothing and returns the table with no row. *)
Theorem find_peaks_none_above_threshold data field threshold box_size s :
  heap s !! data = Some field ->
  (forall row v, In row field -> In v row -> (v <= threshold)%Q) ->
  find_peaks data threshold box_size s
    = Ok (<["x_peak" := IntCol []]>
          (<["y_peak" := IntCol []]>
          (<["peak_value" := FloatCol []]> ∅))) s.
Proof.
  intros Hd Hall. unfold find_peaks, bind, load. rewrite Hd.
  assert (E : List.filter (fun cell => is_peak field threshold box_size cell) (cells field) = []).
  { apply filter_none. intros [[r c] v] Hin. cbn [is_peak].
    destruct (cells_values _ _ _ _ Hin) as (row & Hrow & Hv).
    assert (Hle : Qltb threshold v = false) by (apply Qltb_ge; eauto).
    now rewrite Hle. }
  rewrite E. reflexivity.
Qed.

(** ** More of [dwarf_filter]: when it returns, and what it returns *)


(** X2. On valid input the extent [dwarf_filter] returns is the range of
    the data: least and greatest right ascension, least and greatest
    declination, the least below the greatest on both axes. *)
Theorem extent_is_the_data_range ra dec fwhm_small fwhm_big s :
  valid_input ra dec ->
  exists raw ext d c sg s' x0 y0,
    dwarf_filter ra dec fwhm_small fwhm_big s = Ok (raw, ext, d, c, sg) s' /\
    ext = [x0; amax ra; y0; amax dec] /\
    (x0 == amin ra)%Q /\ (y0 == amin dec)%Q /\
    (amin ra < amax ra)%Q /\ (amin dec < amax dec)%Q.
Proof.
  intros Hv. destruct (dwarf_filter_valid ra dec fwhm_small fwhm_big s Hv) as (f & s' & Hrun & R).
  destruct (returns_extent _ _ _ _ _ _ _ R) as (x0 & y0 & E & Hx0 & Hy0 & Wx & Wy).
  exists (raw_hist f), (extent f), (delta f), (clipped f), (sigma f), s', x0, y0.
  repeat split; assumption.
Qed.


Lemma QofNat_S n : (QofNat (S n) == QofNat n + 1)%Q.
Proof.
  unfold QofNat. rewrite Nat2Z.inj_succ, <- Z.add_1_r, inject_Z_plus. reflexivity.
Qed.

(** Values all above [m] add up to more than their number times [m]. *)
Lemma Qsum_above m l :
  (forall x, In x l -> (m < x)%Q) ->
  (QofNat (length l) * m <= Qsum l)%Q /\ (l <> [] -> (QofNat (length l) * m < Qsum l)%Q).
Proof.
  induction l as [|a l IH]; intros H.
  - split; [ | congruence ]. change (0 * m <= 0)%Q. lra.
  - destruct IH as [IH _]; [ intros x Hx; apply H; now right | ].
    assert (Ha : (m < a)%Q) by (apply H; now left).
    cbn [length Qsum fold_right]. fold (Qsum l). rewrite QofNat_S.
    split; [ | intros _ ]; lra.
Qed.

(** Some value of a non-empty list is at most the mean. *)
Lemma below_mean_exists l :
  l <> [] -> exists x, In x l /\ (x <= Qsum l / QofNat (length l))%Q.
Proof.
  intros Hne. set (m := (Qsum l / QofNat (length l))%Q).
  destruct (existsb (fun x => Qle_bool x m) l) eqn:E.
  - apply existsb_exists in E as (x & Hx & Hle). exists x. split; [ exact Hx | ].
    now apply Qle_bool_iff.
  - exfalso.
    assert (Hall : forall x, In x l -> (m < x)%Q).
    { intros x Hx. apply Qnot_le_lt. intros Hle.
      assert (existsb (fun x => Qle_bool x m) l = true); [ | congruence ].
      apply existsb_exists. exists x. split; [ exact Hx | now apply Qle_bool_iff ]. }
    destruct (Qsum_above m l Hall) as [_ Hlt]. specialize (Hlt Hne).
    assert (Hpos : (0 < QofNat (length l))%Q).
    { apply QofNat_pos. destruct l; [ congruence | cbn; lia ]. }
    assert (Em : (QofNat (length l) * m == Qsum l)%Q).
    { unfold m. field. lra. }
    lra.
Qed.

Lemma in_concat_item2 (a : array2) rows cols x :
  has_shape a rows cols -> In x (concat a) ->
  exists i j, (i < rows)%nat /\ (j < cols)%nat /\ item2 a i j = x.
Proof.
  intros Ha Hx. apply in_concat in Hx as (row & Hrow & Hx).
  apply (In_nth _ _ []) in Hrow as (i & Hi & Ei).
  rewrite (has_shape_length _ _ _ Ha) in Hi.
  apply (In_nth _ _ 0%Q) in Hx as (j & Hj & Ej).
  exists i, j. unfold item2. rewrite Ei.
  rewrite <- Ei, (has_shape_row _ _ _ _ Ha Hi) in Hj. repeat split; assumption.
Qed.

Lemma item2_in_concat (a : array2) rows cols i j :
  has_shape a rows cols -> (i < rows)%nat -> (j < cols)%nat -> In (item2 a i j) (concat a).
Proof.
  intros Ha Hi Hj. apply in_concat. exists (nth i a []). split.
  - apply nth_In. now rewrite (has_shape_length _ _ _ Ha).
  - apply nth_In. now rewrite (has_shape_row _ _ _ _ Ha Hi).
Qed.

(** X4. On valid input the clipped field lies nowhere below the mean of
    the filtered field nor below the filtered field itself, and the mean
    is attained: the least value of the clipped field is the floor. *)
Theorem clipped_field_has_the_mean_as_minimum ra dec fwhm_small fwhm_big s :
  valid_input ra dec ->
  exists raw ext d c sg s',
    dwarf_filter ra dec fwhm_small fwhm_big s = Ok (raw, ext, d, c, sg) s' /\
    exists (D C : array2) (rows cols : nat),
      heap s' !! d = Some D /\ heap s' !! c = Some C /\
      has_shape D rows cols /\ has_shape C rows cols /\
      (forall i j, (i < rows)%nat -> (j < cols)%nat ->
         (mean_of D <= item2 C i j)%Q /\ (item2 D i j <= item2 C i j)%Q) /\
      (exists i j, (i < rows)%nat /\ (j < cols)%nat /\ (item2 C i j == mean_of D)%Q).
Proof.
  intros Hv. destruct (dwarf_filter_valid ra dec fwhm_small fwhm_big s Hv) as (f & s' & Hrun & R).
  exists (raw_hist f), (extent f), (delta f), (clipped f), (sigma f), s'.
  split; [ exact Hrun | ].
  destruct (returns_buffers _ _ _ _ _ _ _ R) as (_ & _ & _ & _ & _ & HD & HC & _).
  destruct (returns_shapes _ _ _ _ _ _ _ R) as (_ & _ & _ & _ & SD & SC).
  destruct (returns_bins _ _ _ _ _ _ _ R) as (_ & _ & Hx & Hy).
  eexists _, _, (Z.to_nat (ny f)), (Z.to_nat (nx f)).
  split; [ exact HD | ]. split; [ exact HC | ].
  split; [ exact SD | ]. split; [ exact SC | ].
  set (D := zip_with (zip_with Qminus) _ _) in *.
  assert (Hat : forall i j, (i < Z.to_nat (ny f))%nat -> (j < Z.to_nat (nx f))%nat ->
            item2 (floor_at (mean_of D) D) i j
            = if Qltb (item2 D i j) (mean_of D) then mean_of D else item2 D i j).
  { intros i j Hi Hj. rewrite floor_at_map.
    exact (item2_map_map (fun q => if Qltb q (mean_of D) then mean_of D else q) D _ _ i j SD Hi Hj). }
  split.
  - intros i j Hi Hj. rewrite (Hat i j Hi Hj).
    destruct (Qltb (item2 D i j) (mean_of D)) eqn:E.
    + apply Qltb_lt in E. split; lra.
    + apply Qltb_ge in E. split; lra.
  - assert (Hne : concat D <> []).
    { intros E. pose proof (item2_in_concat D _ _ 0 0 SD Hy Hx) as Hin.
      rewrite E in Hin. destruct Hin. }
    destruct (below_mean_exists (concat D) Hne) as (x & Hin & Hle).
    destruct (in_concat_item2 D _ _ x SD Hin) as (i & j & Hi & Hj & E).
    exists i, j. split; [ exact Hi | ]. split; [ exact Hj | ].
    rewrite (Hat i j Hi Hj), E. fold (size2 D) in Hle. fold (mean_of D) in Hle.
    destruct (Qltb x (mean_of D)) eqn:Ex; [ reflexivity | ].
    apply Qltb_ge in Ex. lra.
Qed.

(** [np.rint] moves a number by at most a half. *)
Lemma np_rint_near q :
  (- (1 # 2) <= inject_Z (np_rint q) - q <= 1 # 2)%Q.
Proof.
  unfold np_rint. cbv zeta.
  pose proof (Qfloor_le q) as Hlo. pose proof (Qlt_floor q) as Hhi.
  rewrite inject_Z_plus in Hhi. change (inject_Z 1) with 1%Q in Hhi.
  destruct (q - inject_Z (Qfloor q) ?= 1 # 2)%Q eqn:E.
  - apply Qeq_alt in E. destruct (Z.even (Qfloor q)).
    + lra.
    + rewrite inject_Z_plus. change (inject_Z 1) with 1%Q. lra.
  - apply Qlt_alt in E. lra.
  - apply Qgt_alt in E. rewrite inject_Z_plus. change (inject_Z 1) with 1%Q. lra.
Qed.

Lemma astype_int_positive z : (1 <= astype_int z)%Z -> astype_int z = z.
Proof.
  unfold astype_int. destruct ((- 2 ^ 63 <=? z) && (z <? 2 ^ 63))%Z; [ reflexivity | ].
  intros H. exfalso. revert H. apply Z.lt_nge. reflexivity.
Qed.

(** X5. The pixels are one arcminute up to rounding: on valid input the
    histogram [dwarf_filter] returns has as many rows as the declination
    range has arcminutes, and as many columns as the right-ascension range
    times [cos] of the middle declination has arcminutes, each to within a
    half. *)
Theorem bins_are_arcminutes ra dec fwhm_small fwhm_big s :
  valid_input ra dec ->
  exists raw ext d c sg s',
    dwarf_filter ra dec fwhm_small fwhm_big s = Ok (raw, ext, d, c, sg) s' /\
    exists (H : array2) (rows cols : nat),
      heap s' !! raw = Some H /\ has_shape H rows cols /\
      (- (1 # 2) <= QofNat rows - (amax dec - amin dec) * 60 <= 1 # 2)%Q /\
      (- (1 # 2) <= QofNat cols
                    - (amax ra - amin ra)
                      * np_cos ((amin dec + amax dec) / 2 * (np_pi / 180)) * 60 <= 1 # 2)%Q.
Proof.
  intros Hv. destruct (dwarf_filter_valid ra dec fwhm_small fwhm_big s Hv) as (f & s' & Hrun & R).
  exists (raw_hist f), (extent f), (delta f), (clipped f), (sigma f), s'.
  split; [ exact Hrun | ].
  destruct (returns_buffers _ _ _ _ _ _ _ R) as (_ & HH & _).
  destruct (returns_shapes _ _ _ _ _ _ _ R) as (_ & SH & _).
  destruct (returns_bins _ _ _ _ _ _ _ R) as (Ex & Ey & Hx & Hy).
  destruct Hv as (_ & _ & _ & Bx & By).
  eexists _, (Z.to_nat (ny f)), (Z.to_nat (nx f)).
  split; [ exact HH | ]. split; [ exact SH | ].
  unfold QofNat. rewrite !Z2Nat.id by lia. rewrite Ex, Ey.
  unfold bins_x, bins_y in *.
  rewrite (astype_int_positive _ Bx), (astype_int_positive _ By).
  split; apply np_rint_near.
Qed.

(** ** More of the peak cell: bin edges, bounds and missing columns *)

Lemma bind_ext {A B} (m : M A) (k1 k2 : A -> M B) s :
  (forall a s', k1 a s' = k2 a s') -> bind m k1 s = bind m k2 s.
Proof. intros H. unfold bind. destruct (m s); [ apply H | reflexivity ]. Qed.

(** The cell up to its two coordinate vectors. *)
Lemma add_ra_dec_vectors clipped ext tbl s C x_lo x_hi y_lo y_hi nrows ncols :
  heap s !! clipped = Some C ->
  shape C = (nrows, ncols) -> (1 <= nrows)%nat -> (1 <= ncols)%nat ->
  ext = [x_lo; x_hi; y_lo; y_hi] -> (x_lo < x_hi)%Q -> (y_lo < y_hi)%Q ->
  add_ra_dec clipped ext tbl s =
  (let xvec := map (fun k => (x_lo + QofNat k * ((x_hi - x_lo) / QofNat ncols))%Q)
                   (seq 0 (ncols + 1)) in
   let yvec := map (fun k => (y_lo + QofNat k * ((y_hi - y_lo) / QofNat nrows))%Q)
                   (seq 0 (nrows + 1)) in
   xs <- table_ints tbl "x_peak" ;;
   ra <- take xvec xs ;;
   let tbl := <["ra" := FloatCol ra]> tbl in
   ys <- table_ints tbl "y_peak" ;;
   dec <- take yvec ys ;;
   let tbl := <["dec" := FloatCol dec]> tbl in
   ret tbl) s.
Proof.
  intros HC Hshape Hr Hc -> Hx Hy.
  unfold add_ra_dec. cbn [firstn skipn unpack2]. unfold bind at 1. cbn [ret fst snd].
  unfold bind at 1, load at 1. rewrite HC, Hshape. cbn [fst snd].
  rewrite (arange_steps x_lo x_hi ncols Hc Hx). unfold bind at 1. cbn [ret].
  unfold bind at 1. cbn [ret fst snd].
  unfold bind at 1, load at 1. rewrite HC, Hshape. cbn [fst snd].
  rewrite (arange_steps y_lo y_hi nrows Hr Hy). unfold bind at 1. cbn [ret].
  reflexivity.
Qed.

(** The cell on a table with both index columns: two indexings. *)
Lemma add_ra_dec_indexed clipped ext tbl s C x_lo x_hi y_lo y_hi xs ys nrows ncols :
  heap s !! clipped = Some C ->
  shape C = (nrows, ncols) -> (1 <= nrows)%nat -> (1 <= ncols)%nat ->
  ext = [x_lo; x_hi; y_lo; y_hi] -> (x_lo < x_hi)%Q -> (y_lo < y_hi)%Q ->
  tbl !! "x_peak" = Some (IntCol xs) -> tbl !! "y_peak" = Some (IntCol ys) ->
  add_ra_dec clipped ext tbl s =
  (ra <- take (map (fun k => (x_lo + QofNat k * ((x_hi - x_lo) / QofNat ncols))%Q)
                   (seq 0 (ncols + 1))) xs ;;
   dec <- take (map (fun k => (y_lo + QofNat k * ((y_hi - y_lo) / QofNat nrows))%Q)
                    (seq 0 (nrows + 1))) ys ;;
   ret (<["dec" := FloatCol dec]> (<["ra" := FloatCol ra]> tbl))) s.
Proof.
  intros HC Hshape Hr Hc Hext Hx Hy Htx Hty.
  rewrite (add_ra_dec_vectors _ _ _ _ _ _ _ _ _ _ _ HC Hshape Hr Hc Hext Hx Hy). cbv zeta.
  unfold bind at 1, table_ints at 1. rewrite Htx. cbn [ret].
  apply bind_ext. intros ra s1.
  unfold bind at 1, table_ints at 1.
  rewrite lookup_insert_ne by discriminate. now rewrite Hty.
Qed.

Lemma add_ra_dec_runs clipped ext tbl s C x_lo x_hi y_lo y_hi xs ys nrows ncols :
  heap s !! clipped = Some C ->
  shape C = (nrows, ncols) -> (1 <= nrows)%nat -> (1 <= ncols)%nat ->
  ext = [x_lo; x_hi; y_lo; y_hi] -> (x_lo < x_hi)%Q -> (y_lo < y_hi)%Q ->
  tbl !! "x_peak" = Some (IntCol xs) -> tbl !! "y_peak" = Some (IntCol ys) ->
  Forall (fun i => (0 <= i < Z.of_nat ncols)%Z) xs ->
  Forall (fun j => (0 <= j < Z.of_nat nrows)%Z) ys ->
  add_ra_dec clipped ext tbl s
  = Ok (<["dec" := FloatCol
            (map (fun j => (y_lo + QofNat (Z.to_nat j) * ((y_hi - y_lo) / QofNat nrows))%Q) ys)]>
        (<["ra" := FloatCol
            (map (fun i => (x_lo + QofNat (Z.to_nat i) * ((x_hi - x_lo) / QofNat ncols))%Q) xs)]>
         tbl)) s.
Proof.
  intros HC Hshape Hr Hc Hext Hx Hy Htx Hty Hxs Hys.
  rewrite (add_ra_dec_indexed _ _ _ _ _ _ _ _ _ _ _ _ _ HC Hshape Hr Hc Hext Hx Hy Htx Hty).
  rewrite take_arange by (eapply Forall_impl; [ exact Hxs | cbn; intros; lia ]).
  unfold bind at 1. cbn [ret].
  rewrite take_arange by (eapply Forall_impl; [ exact Hys | cbn; intros; lia ]).
  reflexivity.
Qed.

(** Position [i] of [n] steps from [lo] to [hi] is edge [i] of the [n]
    equal bins between the two, and lies below [hi]. *)
Lemma step_position_edge lo lo' hi n i :
  (1 <= n)%nat -> (lo' == lo)%Q -> (lo < hi)%Q -> (0 <= i < Z.of_nat n)%Z ->
  exists e,
    nth_error (linspace lo hi (n + 1)) (Z.to_nat i) = Some e /\
    (lo' + QofNat (Z.to_nat i) * ((hi - lo') / QofNat n) == e)%Q /\
    (lo' + QofNat (Z.to_nat i) * ((hi - lo') / QofNat n) < hi)%Q.
Proof.
  intros Hn Hlo Hlt Hi.
  pose proof (QofNat_pos n Hn) as Hpos.
  exists (QofNat (Z.to_nat i) * ((hi - lo) / QofNat n) + lo)%Q.
  split; [ apply linspace_nth; lia | ].
  assert (Hstep : (0 < (hi - lo) / QofNat n)%Q).
  { apply Qlt_shift_div_l; [ exact Hpos | lra ]. }
  assert (Hin : (QofNat (Z.to_nat i) < QofNat n)%Q) by (apply QofNat_lt; lia).
  assert (E : (lo' + QofNat (Z.to_nat i) * ((hi - lo') / QofNat n)
               == QofNat (Z.to_nat i) * ((hi - lo) / QofNat n) + lo)%Q).
  { rewrite Hlo. ring. }
  split; [ exact E | ]. rewrite E.
  assert (L : (QofNat (Z.to_nat i) * ((hi - lo) / QofNat n) < QofNat n * ((hi - lo) / QofNat n))%Q)
    by (apply Qmult_lt_compat_r; assumption).
  assert (E' : (QofNat n * ((hi - lo) / QofNat n) == hi - lo)%Q) by (field; lra).
  lra.
Qed.

(** X6. The peak cell, run on what [dwarf_filter] returned, gives a peak
    at pixel column [i] and row [j] the lower edges of histogram bin [i]
    in right ascension and of bin [j] in declination, not the bin
    centres; both lie below the greatest coordinate of the data. *)
Theorem peak_coordinates_are_lower_bin_edges ra dec fwhm_small fwhm_big s tbl xs ys :
  valid_input ra dec ->
  tbl !! "x_peak" = Some (IntCol xs) -> tbl !! "y_peak" = Some (IntCol ys) ->
  Forall (fun i => (0 <= i < bins_x ra dec)%Z) xs ->
  Forall (fun j => (0 <= j < bins_y dec)%Z) ys ->
  exists raw ext d c sg s' ras decs,
    dwarf_filter ra dec fwhm_small fwhm_big s = Ok (raw, ext, d, c, sg) s' /\
    add_ra_dec c ext tbl s'
      = Ok (<["dec" := FloatCol decs]> (<["ra" := FloatCol ras]> tbl)) s' /\
    Forall2 (fun i r => exists e,
               nth_error (linspace (amin ra) (amax ra) (Z.to_nat (bins_x ra dec) + 1))
                         (Z.to_nat i) = Some e /\
               (r == e)%Q /\ (r < amax ra)%Q) xs ras /\
    Forall2 (fun j r => exists e,
               nth_error (linspace (amin dec) (amax dec) (Z.to_nat (bins_y dec) + 1))
                         (Z.to_nat j) = Some e /\
               (r == e)%Q /\ (r < amax dec)%Q) ys decs.
Proof.
  intros Hv Htx Hty Hxs Hys.
  destruct (dwarf_filter_valid ra dec fwhm_small fwhm_big s Hv) as (f & s' & Hrun & R).
  destruct (returns_extent _ _ _ _ _ _ _ R) as (x0 & y0 & E & Hx0 & Hy0 & Wx & Wy).
  destruct (returns_buffers _ _ _ _ _ _ _ R) as (_ & _ & _ & _ & _ & _ & HC & _).
  destruct (returns_shapes _ _ _ _ _ _ _ R) as (_ & _ & _ & _ & _ & SC).
  destruct (returns_bins _ _ _ _ _ _ _ R) as (Ex & Ey & Hx & Hy).
  rewrite Ex, Ey in *.
  assert (Hxs' : Forall (fun i => (0 <= i < Z.of_nat (Z.to_nat (bins_x ra dec)))%Z) xs)
    by (eapply Forall_impl; [ exact Hxs | cbn; intros; lia ]).
  assert (Hys' : Forall (fun j => (0 <= j < Z.of_nat (Z.to_nat (bins_y dec)))%Z) ys)
    by (eapply Forall_impl; [ exact Hys | cbn; intros; lia ]).
  exists (raw_hist f), (extent f), (delta f), (clipped f), (sigma f), s'.
  eexists _, _. split; [ exact Hrun | ]. split.
  - apply (add_ra_dec_runs (clipped f) (extent f) tbl s' _ x0 (amax ra) y0 (amax dec) xs ys
             (Z.to_nat (bins_y dec)) (Z.to_nat (bins_x ra dec)) HC); try assumption.
    + apply has_shape_shape; [ exact SC | exact Hy ].
    + lra.
    + lra.
  - split.
    + apply Forall2_fmap_r, Forall_Forall2_diag.
      eapply Forall_impl; [ exact Hxs' | ]. intros i Hi.
      now apply step_position_edge.
    + apply Forall2_fmap_r, Forall_Forall2_diag.
      eapply Forall_impl; [ exact Hys' | ]. intros j Hj.
      now apply step_position_edge.
Qed.

(** ** Indices outside the coordinate vectors *)


Lemma getitem_out_of_range a i :
  (i < - Z.of_nat (length a) \/ Z.of_nat (length a) <= i)%Z ->
  getitem a i = raise (IndexError "index out of bounds").
Proof.
  intros Hi. unfold getitem. cbv zeta.
  set (j := if (i <? 0)%Z then (i + Z.of_nat (length a))%Z else i).
  assert (Hc : ((0 <=? j) && (j <? Z.of_nat (length a)))%Z = false).
  { apply andb_false_iff. unfold j.
    destruct (Z.ltb_spec i 0); [ left; apply Z.leb_gt | right; apply Z.ltb_ge ]; lia. }
  now rewrite Hc.
Qed.





(** X8. A table without an [x_peak] column makes the peak cell raise
    KeyError for that name; one whose [x_peak] column holds floats makes
    it raise IndexError. *)
Theorem peak_table_needs_integer_x_peak clipped ext tbl s C x_lo x_hi y_lo y_hi nrows ncols :
  heap s !! clipped = Some C ->
  shape C = (nrows, ncols) -> (1 <= nrows)%nat -> (1 <= ncols)%nat ->
  ext = [x_lo; x_hi; y_lo; y_hi] -> (x_lo < x_hi)%Q -> (y_lo < y_hi)%Q ->
  (tbl !! "x_peak" = None ->
   add_ra_dec clipped ext tbl s = Raise (KeyError "x_peak") s) /\
  (forall col, tbl !! "x_peak" = Some (FloatCol col) ->
   exists msg, add_ra_dec clipped ext tbl s = Raise (IndexError msg) s).
Proof.
  intros HC Hshape Hr Hc Hext Hx Hy.
  rewrite (add_ra_dec_vectors _ _ _ _ _ _ _ _ _ _ _ HC Hshape Hr Hc Hext Hx Hy). cbv zeta.
  split.
  - intros Hno. unfold bind at 1, table_ints at 1. now rewrite Hno.
  - intros col Hcol. eexists. unfold bind at 1, table_ints at 1. now rewrite Hcol.
Qed.


(** ** Equal kernels, and a shift in right ascension *)

Lemma Qsum_zero l : (forall x, In x l -> (x == 0)%Q) -> (Qsum l == 0)%Q.
Proof.
  induction l as [|a l IH]; intros H; [ reflexivity | ].
  cbn [Qsum fold_right]. fold (Qsum l).
  rewrite (H a) by now left. rewrite IH; [ ring | ].
  intros x Hx. apply H. now right.
Qed.

(** X18. With the two kernel widths equal the difference of the two
    convolutions vanishes: on valid input every entry of the filtered
    field and of the clipped field [dwarf_filter] returns is zero. *)
Theorem equal_kernels_give_a_zero_field ra dec fwhm s :
  valid_input ra dec ->
  exists raw ext d c sg s',
    dwarf_filter ra dec fwhm fwhm s = Ok (raw, ext, d, c, sg) s' /\
    exists (D C : array2) (rows cols : nat),
      heap s' !! d = Some D /\ heap s' !! c = Some C /\
      has_shape D rows cols /\ has_shape C rows cols /\
      forall i j, (i < rows)%nat -> (j < cols)%nat ->
        (item2 D i j == 0)%Q /\ (item2 C i j == 0)%Q.
Proof.
  intros Hv. destruct (dwarf_filter_valid ra dec fwhm fwhm s Hv) as (f & s' & Hrun & R).
  exists (raw_hist f), (extent f), (delta f), (clipped f), (sigma f), s'.
  split; [ exact Hrun | ].
  destruct (returns_buffers _ _ _ _ _ _ _ R) as (_ & _ & _ & _ & _ & HD & HC & _).
  destruct (returns_shapes _ _ _ _ _ _ _ R) as (_ & _ & SB & _ & SD & SC).
  rewrite (ret_kernel_small _ _ _ _ _ _ _ R), <- (ret_kernel_big _ _ _ _ _ _ _ R) in HD, HC, SD, SC.
  eexists _, _, (Z.to_nat (ny f)), (Z.to_nat (nx f)).
  split; [ exact HD | ]. split; [ exact HC | ].
  split; [ exact SD | ]. split; [ exact SC | ].
  set (B := convolve_values _ _) in *.
  set (D := zip_with (zip_with Qminus) B B) in *.
  assert (HD0 : forall i j, (i < Z.to_nat (ny f))%nat -> (j < Z.to_nat (nx f))%nat ->
            (item2 D i j == 0)%Q).
  { intros i j Hi Hj. unfold D. rewrite (item2_zip_with Qminus B B _ _ i j SB SB Hi Hj). ring. }
  assert (Hmean : (mean_of D == 0)%Q).
  { unfold mean_of. rewrite Qsum_zero; [ unfold Qdiv; ring | ].
    intros x Hx. destruct (in_concat_item2 D _ _ x SD Hx) as (i & j & Hi & Hj & <-).
    now apply HD0. }
  intros i j Hi Hj. split; [ now apply HD0 | ].
  rewrite floor_at_map.
  rewrite (item2_map_map (fun q => if Qltb q (mean_of D) then mean_of D else q) D _ _ i j SD Hi Hj).
  destruct (Qltb (item2 D i j) (mean_of D)); [ exact Hmean | now apply HD0 ].
Qed.















End Correctness.

(** * The image cells: proofs *)

Section ImagesCorrectness.

Context {Lib : Libraries} {Svc : Services}.

(** ** The deepest stacked image of a band *)

Lemma argmax_from_spec a : forall best at_best i pre,
  length pre = i -> nth_error pre at_best = Some best ->
  (forall x, In x pre -> (x <= best)%Q) ->
  exists m, nth_error (pre ++ a) (argmax_from best at_best i a) = Some m /\
            forall x, In x (pre ++ a) -> (x <= m)%Q.
Proof.
  induction a as [|q r IH]; intros best at_best i pre Hlen Hbest Hmax.
  - exists best. rewrite app_nil_r. split; assumption.
  - cbn [argmax_from].
    assert (Hlt : (at_best < length pre)%nat) by (apply nth_error_Some; congruence).
    replace (pre ++ q :: r) with ((pre ++ [q]) ++ r) by (now rewrite <- app_assoc).
    destruct (Qltb best q) eqn:E.
    + apply Qltb_lt in E. apply IH.
      * rewrite length_app. cbn. lia.
      * rewrite nth_error_app2 by lia. subst i. now rewrite Nat.sub_diag.
      * intros x Hx. apply in_app_or in Hx as [Hx|[<-|[]]]; [ | lra ].
        specialize (Hmax x Hx). lra.
    + apply Qltb_ge in E. apply IH.
      * rewrite length_app. cbn. lia.
      * now rewrite nth_error_app1 by lia.
      * intros x Hx. apply in_app_or in Hx as [Hx|[<-|[]]]; [ now apply Hmax | exact E ].
Qed.

Lemma np_argmax_spec a :
  a <> [] ->
  exists k m, np_argmax a = ret k /\ nth_error a k = Some m /\
              forall x, In x a -> (x <= m)%Q.
Proof.
  destruct a as [|q r]; [ congruence | intros _ ].
  destruct (argmax_from_spec r q 0%nat 1%nat [q]) as (m & Hm & Hmax).
  - reflexivity.
  - reflexivity.
  - intros x [<-|[]]. lra.
  - exists (argmax_from q 0 1 r), m. repeat split; assumption.
Qed.

Lemma stackedb_iff band row : stackedb band row = true <-> stacked band row.
Proof.
  unfold stackedb, stacked. rewrite !andb_true_iff, !String.eqb_eq. tauto.
Qed.

Lemma table_mask_stacked table band :
  table_mask table
    (zip_with andb
       (zip_with andb (column_eq proctype table "Stack") (column_eq prodtype table "image"))
       (column_eq obs_bandpass table band))
  = List.filter (stackedb band) table.
Proof.
  unfold table_mask, column_eq. induction table as [|row table IH]; [ reflexivity | ].
  cbn [map zip_with combine List.filter snd]. fold (stackedb band row).
  destruct (stackedb band row); cbn [map fst]; now rewrite IH.
Qed.

Lemma deepest_image_Ok table band s :
  (exists row, In row table /\ stacked band row) ->
  exists row s',
    deepest_image table (sel0_of table) band s = Ok (fits_getdata (access_url row)) s' /\
    deepest table band row /\ heap s' = heap s.
Proof.
  intros (row0 & Hin0 & Hst0).
  unfold deepest_image, sel0_of. rewrite table_mask_stacked.
  set (T := List.filter (stackedb band) table).
  assert (HT : forall row, In row T <-> In row table /\ stacked band row).
  { intros row. unfold T. rewrite filter_In, stackedb_iff. tauto. }
  assert (Hne : map exptime T <> []).
  { intros E. apply map_eq_nil in E. assert (In row0 T) as Hin by (apply HT; tauto).
    rewrite E in Hin. destruct Hin. }
  destruct (np_argmax_spec _ Hne) as (k & m & Ek & Hk & Hmax).
  rewrite nth_error_map in Hk.
  destruct (nth_error T k) as [row|] eqn:Erow; [ | discriminate ].
  injection Hk as <-.
  exists row. eexists. split; [ | split ].
  - unfold bind at 1, print at 1. rewrite Ek. unfold bind at 1. cbn [ret].
    unfold bind at 1, table_row. rewrite Erow. cbn [ret].
    unfold bind, print, ret. reflexivity.
  - apply nth_error_In in Erow. apply HT in Erow as [Hin Hst].
    split; [ exact Hin | ]. split; [ exact Hst | ].
    intros row' Hin' Hst'. apply Hmax, in_map, HT. tauto.
  - reflexivity.
Qed.

Lemma deepest_image_Raise table band s :
  (forall row, In row table -> ~ stacked band row) ->
  exists s',
    deepest_image table (sel0_of table) band s
      = Raise (ValueError "attempt to get argmax of an empty sequence") s' /\
    heap s' = heap s.
Proof.
  intros Hno. unfold deepest_image, sel0_of. rewrite table_mask_stacked.
  rewrite (filter_none (stackedb band) table).
  - eexists. split; [ reflexivity | reflexivity ].
  - intros row Hin. specialize (Hno row Hin).
    destruct (stackedb band row) eqn:E; [ | reflexivity ].
    apply stackedb_iff in E. contradiction.
Qed.

Lemma stacked_dec table band :
  {exists row, In row table /\ stacked band row} + {forall row, In row table -> ~ stacked band row}.
Proof.
  destruct (existsb (stackedb band) table) eqn:E.
  - left. apply existsb_exists in E as (row & Hin & Hst). exists row.
    split; [ exact Hin | now apply stackedb_iff ].
  - right. intros row Hin Hst.
    assert (existsb (stackedb band) table = true); [ | congruence ].
    apply existsb_exists. exists row. split; [ exact Hin | now apply stackedb_iff ].
Qed.

Lemma for_bands_Ok table bands : forall images s,
  Forall (fun band => exists row, In row table /\ stacked band row) bands ->
  exists new s',
    for_bands (deepest_image table (sel0_of table)) bands images s = Ok (images ++ new) s' /\
    heap s' = heap s /\
    Forall2 (fun band img => exists row, deepest table band row /\
                                         img = fits_getdata (access_url row)) bands new.
Proof.
  induction bands as [|band bands IH]; intros images s Hall.
  - exists [], s. rewrite app_nil_r. repeat split. constructor.
  - apply Forall_cons in Hall as [Hband Hall]. cbn [for_bands].
    destruct (deepest_image_Ok table band s Hband) as (row & s1 & E1 & Hrow & Hheap1).
    destruct (IH (images ++ [fits_getdata (access_url row)]) s1 Hall)
      as (new & s' & E & Hheap & Hnew).
    exists (fits_getdata (access_url row) :: new), s'.
    unfold bind. rewrite E1, E, <- app_assoc. split; [ reflexivity | ].
    split; [ congruence | ]. constructor; [ | exact Hnew ]. now exists row.
Qed.

Lemma for_bands_Raise table bands : forall images s,
  Exists (fun band => forall row, In row table -> ~ stacked band row) bands ->
  exists s',
    for_bands (deepest_image table (sel0_of table)) bands images s
      = Raise (ValueError "attempt to get argmax of an empty sequence") s' /\
    heap s' = heap s.
Proof.
  induction bands as [|band bands IH]; intros images s Hex; [ inversion Hex | ].
  cbn [for_bands]. destruct (stacked_dec table band) as [Hyes|Hno].
  - apply Exists_cons in Hex as [Hno|Hex].
    { destruct Hyes as (row & Hin & Hst). exfalso. exact (Hno row Hin Hst). }
    destruct (deepest_image_Ok table band s Hyes) as (row & s1 & E1 & _ & Hheap1).
    destruct (IH (images ++ [fits_getdata (access_url row)]) s1 Hex) as (s' & E & Hheap).
    exists s'. unfold bind. rewrite E1, E. split; [ reflexivity | congruence ].
  - destruct (deepest_image_Raise table band s Hno) as (s' & E & Hheap).
    exists s'. unfold bind. rewrite E. split; [ reflexivity | exact Hheap ].
Qed.

(** X10. When the image list holds a stacked image of every band asked
    for, [download_deepest_images] raises nothing and returns one image
    per band, in the order of the bands: each is the download of a
    stacked image of its band whose exposure time no other stacked image
    of that band in the list exceeds. *)
Theorem download_returns_the_deepest_stack_of_each_band ra dec fov bands s :
  let table := svc_search (ra, dec) (fov / np_cos (dec * np_pi / 180), fov)%Q in
  Forall (fun band => exists row, In row table /\ stacked band row) bands ->
  exists images s',
    download_deepest_images ra dec fov bands s = Ok images s' /\
    heap s' = heap s /\
    Forall2 (fun band img =>
               exists row,
                 In row table /\ stacked band row /\
                 (forall row', In row' table -> stacked band row' ->
                               (exptime row' <= exptime row)%Q) /\
                 img = fits_getdata (access_url row)) bands images.
Proof.
  intros table Hall. unfold download_deepest_images. fold table. fold (sel0_of table).
  unfold bind at 1, print at 1.
  set (s0 := {| heap := heap s; stdout := _ |}).
  destruct (for_bands_Ok table bands [] s0 Hall) as (images & s1 & E & Hheap & Himg).
  exists images. eexists. split; [ | split ].
  - unfold bind at 1. rewrite E. cbn [app]. unfold bind, print, ret. reflexivity.
  - cbn [heap]. exact Hheap.
  - eapply Forall2_impl; [ exact Himg | ].
    intros band img (row & (Hin & Hst & Hmax) & ->). exists row. tauto.
Qed.

(** X11. When some band asked for has no stacked image in the image
    list, [download_deepest_images] raises ValueError, from [np.argmax]
    of no exposure time, and returns no image, not even those of the
    bands before it. *)
Theorem band_without_stack_is_ValueError ra dec fov bands s :
  let table := svc_search (ra, dec) (fov / np_cos (dec * np_pi / 180), fov)%Q in
  Exists (fun band => forall row, In row table -> ~ stacked band row) bands ->
  exists msg s',
    download_deepest_images ra dec fov bands s = Raise (ValueError msg) s' /\
    heap s' = heap s.
Proof.
  intros table Hex. unfold download_deepest_images. fold table. fold (sel0_of table).
  unfold bind at 1, print at 1.
  set (s0 := {| heap := heap s; stdout := _ |}).
  destruct (for_bands_Raise table bands [] s0 Hex) as (s1 & E & Hheap).
  eexists _, s1. split; [ | exact Hheap ].
  unfold bind at 1. rewrite E. reflexivity.
Qed.

(** X12. The image cell of peak [idx] raises IndexError, before it
    prints or searches anything, when the table of peaks has no row
    [idx]: on an empty table for the first peak, on a table of one peak
    for the second. *)
Theorem image_cell_of_missing_peak_is_IndexError tbl ras idx bands s :
  tbl !! "ra" = Some (FloatCol ras) ->
  (idx < - Z.of_nat (length ras) \/ Z.of_nat (length ras) <= idx)%Z ->
  exists msg, images_cell tbl idx bands s = Raise (IndexError msg) s.
Proof.
  intros Hra Hidx. unfold images_cell.
  unfold bind at 1, table_floats at 1. rewrite Hra. cbn [ret].
  unfold bind at 1. rewrite (getitem_out_of_range ras idx Hidx). eauto.
Qed.

(** ** Medians *)









(** ** The figure *)

(** X14. Given a title for each picture it draws, [plot_images] raises
    nothing and draws the first four pictures only, each with its title
    and without a frame; with fewer than four pictures the axes left
    over stay empty. *)
Theorem plot_images_draws_four_at_most images titles :
  (Nat.min 4 (length images) <= length titles)%nat ->
  plot_images images titles
  = (zip_with panel (firstn 4 images) titles ++ repeat add_subplot (4 - length images), None).
Proof.
  intros Hlen.
  destruct images as [|i0 [|i1 [|i2 [|i3 rest]]]];
    destruct titles as [|t0 [|t1 [|t2 [|t3 more]]]];
    cbn in Hlen; try lia; try reflexivity.
Qed.

(** X15. With fewer titles than pictures to draw, [plot_images] raises
    IndexError at the first picture without a title: the pictures before
    it are drawn with their titles, that one is drawn without a title,
    the axes after it stay empty.  Four pictures with the default three
    titles end so. *)
Theorem plot_images_short_of_titles_is_IndexError images titles :
  (length titles < Nat.min 4 (length images))%nat ->
  exists img msg,
    nth_error images (length titles) = Some img /\
    plot_images images titles
    = (zip_with panel images titles
       ++ {| image := Some img; axis_on := false; title := None |}
       :: repeat add_subplot (3 - length titles),
       Some (IndexError msg)).
Proof.
  intros Hlen.
  destruct images as [|i0 [|i1 [|i2 [|i3 rest]]]];
    destruct titles as [|t0 [|t1 [|t2 [|t3 more]]]];
    cbn in Hlen; try lia; eexists _, _; (split; reflexivity).
Qed.


(** X17. With fewer than three images the plot cell raises TypeError and
    draws nothing: the composite needs three. *)
Theorem fewer_than_three_images_is_TypeError (images : list array2) bands s :
  (length images < 3)%nat ->
  exists msg, plot_cell images bands s = Raise (TypeError msg) s.
Proof.
  intros Hlen. destruct images as [|i0 [|i1 [|i2 rest]]]; cbn in Hlen; try lia;
    eexists; reflexivity.
Qed.

End ImagesCorrectness.

(** * The query cell: proofs *)

Section Query.

Local Open Scope string_scope.

Lemma digit_value_digit d : (d < 10)%N -> digit_value (digit d) = Some d.
Proof.
  intros Hd. unfold digit_value, digit. cbv zeta.
  rewrite Ascii.N_ascii_embedding by lia.
  replace ((48 <=? 48 + d) && (48 + d <=? 57))%N with true.
  - f_equal. lia.
  - symmetry. apply andb_true_intro. split; apply N.leb_le; lia.
Qed.

Lemma append_cons c a b : String c a ++ b = String c (a ++ b).
Proof. reflexivity. Qed.

Lemma read_digits_app a b : forall acc,
  read_digits acc (a ++ b) =
  match read_digits acc a with
  | Some x => read_digits x b
  | None => None
  end.
Proof.
  induction a as [|c a IH]; intros acc; [ reflexivity | ].
  rewrite append_cons. cbn [read_digits]. destruct (digit_value c); [ apply IH | reflexivity ].
Qed.

Lemma read_digits_decimal fuel : forall n,
  (1 <= fuel)%nat -> (n < 2 ^ N.of_nat fuel)%N ->
  read_digits 0 (decimal_digits fuel n) = Some n.
Proof.
  induction fuel as [|fuel IH]; intros n Hfuel Hn; [ lia | ].
  cbn [decimal_digits]. destruct (N.ltb_spec n 10) as [Hlt|Hge].
  - cbn [read_digits]. now rewrite (digit_value_digit n Hlt).
  - assert (Hpow : (2 ^ N.of_nat (S fuel) = 2 * 2 ^ N.of_nat fuel)%N).
    { rewrite Nat2N.inj_succ. apply N.pow_succ_r'. }
    assert (Hdiv : (n / 10 < 2 ^ N.of_nat fuel)%N).
    { apply N.Div0.div_lt_upper_bound. lia. }
    assert (Hfuel' : (1 <= fuel)%nat).
    { destruct fuel; [ | lia ]. cbn in Hdiv.
      assert (1 <= n / 10)%N; [ | lia ].
      apply N.div_le_lower_bound; lia. }
    rewrite read_digits_app, (IH (n / 10)%N Hfuel' Hdiv). cbn [read_digits].
    rewrite digit_value_digit by (apply N.mod_lt; lia).
    f_equal. pose proof (N.div_mod n 10). lia.
Qed.

Lemma read_digits_format_N n : read_digits 0 (format_N n) = Some n.
Proof.
  unfold format_N. apply read_digits_decimal; [ lia | ].
  rewrite Nat2N.inj_succ, N2Nat.id.
  destruct n as [|p]; [ reflexivity | ]. apply N.log2_spec. lia.
Qed.

Lemma format_N_head n : exists c r, format_N n = String c r.
Proof.
  unfold format_N. generalize (N.to_nat (N.log2 n)). intros fuel.
  cbn [decimal_digits]. destruct (n <? 10)%N; [ eauto | ].
  destruct (decimal_digits fuel (n / 10)); [ | rewrite append_cons ]; eauto.
Qed.

Lemma read_N_format_N n : read_N (format_N n) = Some n.
Proof.
  pose proof (read_digits_format_N n) as H.
  destruct (format_N_head n) as (c & r & E). rewrite E in *. exact H.
Qed.

(** A text of digits does not begin with a sign. *)
Lemma digits_head c r acc x :
  read_digits acc (String c r) = Some x ->
  Ascii.eqb c minus_sign = false /\ Ascii.eqb c point = false.
Proof.
  cbn [read_digits]. intros H.
  destruct (Ascii.eqb_spec c minus_sign) as [->|_]; [ discriminate H | ].
  destruct (Ascii.eqb_spec c point) as [->|_]; [ discriminate H | ]. now split.
Qed.

Lemma split_point_digits a b : forall acc x,
  read_digits acc a = Some x -> split_point (a ++ String point b) = Some (a, b).
Proof.
  induction a as [|c a IH]; intros acc x H.
  - change (split_point (String point b) = Some (EmptyString, b)).
    cbn [split_point]. now rewrite Ascii.eqb_refl.
  - destruct (digits_head _ _ _ _ H) as [_ Hc].
    rewrite append_cons. cbn [split_point]. rewrite Hc.
    cbn [read_digits] in H. destruct (digit_value c) as [d|]; [ | discriminate H ].
    now rewrite (IH _ _ H).
Qed.

Lemma read_digits_six m : (m < 1000000)%N -> read_digits 0 (six_digits m) = Some m.
Proof.
  intros Hm. unfold six_digits. cbn [read_digits].
  rewrite !digit_value_digit by (apply N.mod_lt; lia).
  f_equal.
  pose proof (N.div_mod m 10). pose proof (N.div_mod (m / 10) 10).
  pose proof (N.div_mod (m / 100) 10). pose proof (N.div_mod (m / 1000) 10).
  pose proof (N.div_mod (m / 10000) 10). pose proof (N.div_mod (m / 100000) 10).
  assert (E2 : (m / 10 / 10 = m / 100)%N) by (now rewrite N.Div0.div_div).
  assert (E3 : (m / 100 / 10 = m / 1000)%N) by (now rewrite N.Div0.div_div).
  assert (E4 : (m / 1000 / 10 = m / 10000)%N) by (now rewrite N.Div0.div_div).
  assert (E5 : (m / 10000 / 10 = m / 100000)%N) by (now rewrite N.Div0.div_div).
  assert (E6 : (m / 100000 / 10 = 0)%N).
  { rewrite N.Div0.div_div. apply N.div_small. exact Hm. }
  assert (E7 : ((m / 100000) mod 10 = m / 100000)%N) by lia.
  lia.
Qed.

Lemma read_unsigned_format whole part :
  (part < 1000000)%N ->
  read_unsigned (format_N whole ++ "." ++ six_digits part)
  = Some (inject_Z (Z.of_N whole) + inject_Z (Z.of_N part) / 1000000)%Q.
Proof.
  intros Hpart. unfold read_unsigned.
  change ("." ++ six_digits part) with (String point (six_digits part)).
  rewrite (split_point_digits _ _ _ _ (read_digits_format_N whole)).
  rewrite read_N_format_N.
  change (read_N (six_digits part)) with (read_digits 0 (six_digits part)).
  now rewrite (read_digits_six part Hpart).
Qed.

Lemma read_d_format_d z : read_d (format_d z) = Some z.
Proof.
  unfold format_d. destruct (Z.ltb_spec z 0) as [Hneg|Hpos].
  - change ("-" ++ format_N (Z.to_N (- z))) with (String minus_sign (format_N (Z.to_N (- z)))).
    cbn [read_d]. rewrite Ascii.eqb_refl, read_N_format_N. cbn [option_map]. f_equal. lia.
  - pose proof (read_digits_format_N (Z.to_N z)) as H.
    destruct (format_N_head (Z.to_N z)) as (c & r & E).
    pose proof (read_N_format_N (Z.to_N z)) as HN. rewrite E in *.
    destruct (digits_head _ _ _ _ H) as [Hc _].
    cbn [read_d]. rewrite Hc, HN. cbn [option_map]. f_equal. lia.
Qed.

(** The number of millionths nearest to a magnitude. *)
Lemma millionths_near a :
  (0 <= a)%Q ->
  let n := Z.to_N (np_rint (a * 1000000)) in
  (- (1 # 2000000)
   <= inject_Z (Z.of_N (n / 1000000)) + inject_Z (Z.of_N (n mod 1000000)) / 1000000 - a
   <= 1 # 2000000)%Q.
Proof.
  intros Ha n.
  pose proof (np_rint_near (a * 1000000)) as Hnear.
  assert (Hz : (0 <= np_rint (a * 1000000))%Z).
  { apply Z.lt_succ_r, Z.lt_pred_lt_succ. rewrite Zlt_Qlt.
    change (inject_Z (Z.pred 0)) with (-1)%Q. lra. }
  assert (En : Z.of_N n = np_rint (a * 1000000)) by (unfold n; lia).
  assert (Esplit : (inject_Z (Z.of_N (n / 1000000))
                    + inject_Z (Z.of_N (n mod 1000000)) / 1000000
                    == inject_Z (Z.of_N n) / 1000000)%Q).
  { pose proof (N.div_mod n 1000000) as Hdm.
    assert (Z.of_N n = 1000000 * Z.of_N (n / 1000000) + Z.of_N (n mod 1000000))%Z as -> by lia.
    rewrite inject_Z_plus, inject_Z_mult. change (inject_Z 1000000) with 1000000%Q. field. }
  rewrite Esplit, En.
  set (r := inject_Z (np_rint (a * 1000000))) in *.
  assert (E : (r / 1000000 - a == (r - a * 1000000) / 1000000)%Q) by field.
  rewrite E. split.
  - apply Qle_shift_div_l; [ reflexivity | ]. lra.
  - apply Qle_shift_div_r; [ reflexivity | ]. lra.
Qed.

(** What [format(q, 'f')] writes reads back as a number within half a
    millionth of [q]. *)
Lemma read_f_format_f q :
  exists v, read_f (format_f q) = Some v /\
            (- (1 # 2000000) <= v - q <= 1 # 2000000)%Q.
Proof.
  unfold format_f. cbv zeta. destruct (Qltb q 0) eqn:Hsign.
  - apply Qltb_lt in Hsign.
    set (n := Z.to_N (np_rint (- q * 1000000))).
    change ("-" ++ format_N (n / 1000000) ++ "." ++ six_digits (n mod 1000000))
      with (String minus_sign (format_N (n / 1000000) ++ "." ++ six_digits (n mod 1000000))).
    cbn [read_f]. rewrite Ascii.eqb_refl.
    rewrite read_unsigned_format by (apply N.mod_lt; lia).
    eexists. split; [ reflexivity | ].
    pose proof (millionths_near (- q)) as H. cbv zeta in H. fold n in H.
    assert (0 <= - q)%Q as H0 by lra. specialize (H H0). lra.
  - apply Qltb_ge in Hsign.
    set (n := Z.to_N (np_rint (q * 1000000))).
    change ("" ++ format_N (n / 1000000) ++ "." ++ six_digits (n mod 1000000))
      with (format_N (n / 1000000) ++ "." ++ six_digits (n mod 1000000)).
    pose proof (read_unsigned_format (n / 1000000) (n mod 1000000)) as Hread.
    pose proof (read_digits_format_N (n / 1000000)) as Hd.
    destruct (format_N_head (n / 1000000)) as (c & r & E). rewrite E in *.
    destruct (digits_head _ _ _ _ Hd) as [Hc _].
    rewrite append_cons. rewrite append_cons in Hread. cbn [read_f]. rewrite Hc.
    rewrite Hread by (apply N.mod_lt; lia).
    eexists. split; [ reflexivity | ].
    exact (millionths_near q Hsign).
Qed.

(** X20. The numbers [makequery] writes into the query read back from its
    text: the field number as it was given, the position and the radius
    each to within half a millionth of a degree. *)
Theorem query_numbers_read_back ra0 dec0 radius0 field :
  exists f a b c,
    makequery ra0 dec0 radius0 field = query_template f a b c /\
    read_d f = Some field /\
    (exists v, read_f a = Some v /\ (- (1 # 2000000) <= v - ra0 <= 1 # 2000000)%Q) /\
    (exists v, read_f b = Some v /\ (- (1 # 2000000) <= v - dec0 <= 1 # 2000000)%Q) /\
    (exists v, read_f c = Some v /\ (- (1 # 2000000) <= v - radius0 <= 1 # 2000000)%Q).
Proof.
  exists (format_d field), (format_f ra0), (format_f dec0), (format_f radius0).
  split; [ reflexivity | ]. split; [ apply read_d_format_d | ].
  repeat split; apply read_f_format_f.
Qed.

End Query.

(** * The theorems on concrete input *)

Section Reference.

#[local] Existing Instance reference.

Lemma convolve_ref_shape a k : map length (convolve_values a k) = map length a.
Proof.
  change (convolve_values a k) with (convolve_ref a k). unfold convolve_ref.
  change (map length (imap ?f a)) with (length <$> imap f a).
  rewrite fmap_imap.
  rewrite (imap_ext _ (const length)).
  - apply imap_const.
  - intros i row _. unfold compose, const. apply length_imap.
Qed.

(** The four reference stars span two bins in right ascension and three in
    declination. *)
Lemma valid_ref : valid_input ra_ref dec_ref.
Proof.
  split; [ discriminate | ]. split; [ discriminate | ]. split; [ reflexivity | ].
  assert (Ex : bins_x ra_ref dec_ref = 2%Z) by (vm_compute; reflexivity).
  assert (Ey : bins_y dec_ref = 3%Z) by (vm_compute; reflexivity).
  rewrite Ex, Ey. split; lia.
Qed.

(** C4 on the four reference stars. *)
Lemma filtered_field_on_four_stars :
  exists raw ext d c sg s',
    dwarf_filter ra_ref dec_ref 2 20 fresh_state = Ok (raw, ext, d, c, sg) s' /\
    exists (H S B D : array2) (rows cols : nat),
      heap s' !! raw = Some H /\ heap s' !! d = Some D /\
      S = convolve_values H (kernel_array (Gaussian2DKernel (2 / 2.35) 1)) /\
      B = convolve_values H (kernel_array (Gaussian2DKernel (20 / 2.35) 1)) /\
      has_shape H rows cols /\ has_shape D rows cols /\ shape D = shape H /\
      forall i j, (i < rows)%nat -> (j < cols)%nat ->
        item2 D i j = (item2 S i j - item2 B i j)%Q.
Proof.
  exact (filtered_field_is_small_minus_big convolve_ref_shape
           ra_ref dec_ref 2 20 fresh_state valid_ref).
Defined.

(** C5 on the four reference stars. *)
Lemma clipped_field_on_four_stars :
  exists raw ext d c sg s',
    dwarf_filter ra_ref dec_ref 2 20 fresh_state = Ok (raw, ext, d, c, sg) s' /\
    exists (D C : array2) (rows cols : nat),
      heap s' !! d = Some D /\ heap s' !! c = Some C /\
      has_shape D rows cols /\ has_shape C rows cols /\
      forall i j, (i < rows)%nat -> (j < cols)%nat ->
        ((item2 D i j < mean_of D)%Q -> item2 C i j = mean_of D) /\
        ((mean_of D <= item2 D i j)%Q -> item2 C i j = item2 D i j).
Proof.
  exact (clipped_field_floors_at_mean convolve_ref_shape
           ra_ref dec_ref 2 20 fresh_state valid_ref).
Defined.

(** C6 on the four reference stars. *)
Lemma histogram_of_four_stars :
  exists raw ext d c sg s',
    dwarf_filter ra_ref dec_ref 2 20 fresh_state = Ok (raw, ext, d, c, sg) s' /\
    exists (H : array2) (xe ye : array1),
      heap s' !! raw = Some H /\
      xe = linspace (amin ra_ref) (amax ra_ref) (Z.to_nat (bins_x ra_ref dec_ref) + 1) /\
      ye = linspace (amin dec_ref) (amax dec_ref) (Z.to_nat (bins_y dec_ref) + 1) /\
      has_shape H (Z.to_nat (bins_y dec_ref)) (Z.to_nat (bins_x ra_ref dec_ref)) /\
      (forall i j,
         (i < Z.to_nat (bins_x ra_ref dec_ref))%nat ->
         (j < Z.to_nat (bins_y dec_ref))%nat ->
         item2 H j i =
         QofNat (length (List.filter
                           (fun p => in_binb xe (Z.to_nat (bins_x ra_ref dec_ref)) i (fst p)
                                     && in_binb ye (Z.to_nat (bins_y dec_ref)) j (snd p))
                           (combine ra_ref dec_ref)))) /\
      (Qsum (concat H) == QofNat (length ra_ref))%Q.
Proof.
  exact (histogram_counts_the_points convolve_ref_shape
           ra_ref dec_ref 2 20 fresh_state valid_ref).
Defined.

(** C9 on the four reference stars. *)
Lemma two_buffers_on_four_stars :
  exists raw ext d c sg s',
    dwarf_filter ra_ref dec_ref 2 20 fresh_state = Ok (raw, ext, d, c, sg) s' /\
    d <> c /\
    (exists H D : array2,
       heap s' !! raw = Some H /\ heap s' !! d = Some D /\
       D = zip_with (zip_with Qminus)
             (convolve_values H (kernel_array (Gaussian2DKernel (2 / 2.35) 1)))
             (convolve_values H (kernel_array (Gaussian2DKernel (20 / 2.35) 1))) /\
       heap s' !! c = Some (floor_at (mean_of D) D)) /\
    (forall a s'', store c a s' = Ok tt s'' -> heap s'' !! d = heap s' !! d) /\
    (forall a s'', store d a s' = Ok tt s'' -> heap s'' !! c = heap s' !! c).
Proof.
  exact (flooring_leaves_filtered_field convolve_ref_shape
           ra_ref dec_ref 2 20 fresh_state valid_ref).
Defined.

(** C10 on the four reference stars. *)
Lemma shapes_on_four_stars :
  exists raw ext d c sg s',
    dwarf_filter ra_ref dec_ref 2 20 fresh_state = Ok (raw, ext, d, c, sg) s' /\
    exists (cnt H D C : array2) (xe ye : array1),
      cnt = histogram_counts xe ye (combine ra_ref dec_ref)
              (Z.to_nat (bins_x ra_ref dec_ref)) (Z.to_nat (bins_y dec_ref)) /\
      has_shape cnt (Z.to_nat (bins_x ra_ref dec_ref)) (Z.to_nat (bins_y dec_ref)) /\
      heap s' !! raw = Some H /\ heap s' !! d = Some D /\ heap s' !! c = Some C /\
      H = transpose cnt /\
      has_shape H (Z.to_nat (bins_y dec_ref)) (Z.to_nat (bins_x ra_ref dec_ref)) /\
      has_shape D (Z.to_nat (bins_y dec_ref)) (Z.to_nat (bins_x ra_ref dec_ref)) /\
      has_shape C (Z.to_nat (bins_y dec_ref)) (Z.to_nat (bins_x ra_ref dec_ref)) /\
      shape H = (Z.to_nat (bins_y dec_ref), Z.to_nat (bins_x ra_ref dec_ref)) /\
      shape D = shape H /\ shape C = shape H /\
      forall i j,
        (i < Z.to_nat (bins_x ra_ref dec_ref))%nat ->
        (j < Z.to_nat (bins_y dec_ref))%nat ->
        item2 H j i = item2 cnt i j.
Proof.
  exact (returned_arrays_are_dec_by_ra convolve_ref_shape
           ra_ref dec_ref 2 20 fresh_state valid_ref).
Defined.

(** C1, as the code has it, on two identical points. *)
Lemma identical_points_are_rejected :
  exists e s',
    dwarf_filter [5; 5]%Q [7; 7]%Q 2 20 fresh_state = Raise e s' /\
    exc_type e = "ValueError" /\
    heap s' = heap fresh_state /\
    stdout s' = stdout fresh_state ++ [OutStr "Computing differential convolution .... "].
Proof.
  apply (dwarf_filter_rejects_with_ValueError [5; 5]%Q [7; 7]%Q 2 20 fresh_state).
  do 5 right. exists 5%Q, 7%Q, 2%nat. split; reflexivity.
Defined.

(** C1 as the specification states it fails: on empty input, and on two identical
    points, the exception is numpy's [ValueError], not an
    [InvalidInputError]; it comes after the first line was printed, and for
    the identical points from [histogram2d], which was handed the bin
    counts computed before. *)
Lemma no_InvalidInputError_is_raised :
  (exists e s',
     dwarf_filter [] [] 2 20 fresh_state = Raise e s' /\
     e = ValueError "zero-size array to reduction operation minimum which has no identity" /\
     exc_type e <> "InvalidInputError" /\
     stdout s' = [OutStr "Computing differential convolution .... "]) /\
  (exists e s',
     dwarf_filter [5; 5]%Q [7; 7]%Q 2 20 fresh_state = Raise e s' /\
     e = ValueError "`bins[0]` must be positive, when an integer" /\
     exc_type e <> "InvalidInputError" /\
     stdout s' = [OutStr "Computing differential convolution .... "]).
Proof.
  split; do 2 eexists; (split; [ vm_compute; reflexivity | ]);
    (split; [ reflexivity | ]); (split; [ discriminate | reflexivity ]).
Qed.

(** C2, as the code has it, on the four reference stars. *)
Lemma kernels_on_four_stars :
  exists f s',
    dwarf_filter_body ra_ref dec_ref 2 20 fresh_state = Ok f s' /\
    x_stddev (kernel_small f) = (2 / 2.35)%Q /\
    x_stddev (kernel_big f) = (20 / 2.35)%Q /\
    heap s' !! conv_small f =
      Some (convolve_values (val s' (raw_hist f))
                            (Gaussian2D_discretize (x_stddev (kernel_small f)) 1)) /\
    heap s' !! conv_big f =
      Some (convolve_values (val s' (raw_hist f))
                            (Gaussian2D_discretize (x_stddev (kernel_big f)) 1)).
Proof.
  exact (kernel_stddev_is_fwhm_over_2_35 convolve_ref_shape
           ra_ref dec_ref 2 20 fresh_state valid_ref).
Defined.

(** C2 as the specification states it fails: for widths 2 and 20 the standard
    deviations of the kernels are not [2 / 2.354820045] and
    [20 / 2.354820045]. *)
Lemma kernel_stddev_is_not_exact :
  exists f s',
    dwarf_filter_body ra_ref dec_ref 2 20 fresh_state = Ok f s' /\
    ~ (x_stddev (kernel_small f) == 2 / 2.354820045)%Q /\
    ~ (x_stddev (kernel_big f) == 20 / 2.354820045)%Q.
Proof.
  destruct (dwarf_filter_body_valid convolve_ref_shape ra_ref dec_ref 2 20 fresh_state valid_ref)
    as (f & s' & E).
  exists f, s'. split; [ exact E | ].
  pose proof (dwarf_filter_body_returns convolve_ref_shape _ _ _ _ _ _ _ E) as R.
  rewrite (ret_kernel_small _ _ _ _ _ _ _ R), (ret_kernel_big _ _ _ _ _ _ _ R).
  split; intros C; vm_compute in C; discriminate.
Qed.

(** C3, as the code has it, on the four reference stars. *)
Lemma mid_declination_on_four_stars :
  exists f s',
    dwarf_filter_body ra_ref dec_ref 2 20 fresh_state = Ok f s' /\
    ymean f = ((amin dec_ref + amax dec_ref) / 2)%Q /\
    xdiff_angular f = ((amax ra_ref - amin ra_ref) * np_cos (ymean f * (np_pi / 180)))%Q /\
    nx f = astype_int (np_rint (xdiff_angular f * 60)).
Proof.
  exact (cos_correction_uses_mid_declination convolve_ref_shape
           ra_ref dec_ref 2 20 fresh_state valid_ref).
Defined.

(** C3 as the specification states it fails: for declinations 0, 1/20, 1/60 and
    1/40 the declination of the correction is 1/40, the midpoint of the
    range, where the arithmetic mean is 11/480; the corrected extent is
    not the one the arithmetic mean would give. *)
Lemma mid_declination_is_not_the_mean :
  exists f s',
    dwarf_filter_body ra_ref dec_ref 2 20 fresh_state = Ok f s' /\
    (ymean f == 1 # 40)%Q /\
    (arithmetic_mean dec_ref == 11 # 480)%Q /\
    ~ (ymean f == arithmetic_mean dec_ref)%Q /\
    ~ (xdiff_angular f ==
       (amax ra_ref - amin ra_ref) * np_cos (arithmetic_mean dec_ref * (np_pi / 180)))%Q.
Proof.
  destruct (dwarf_filter_body_valid convolve_ref_shape ra_ref dec_ref 2 20 fresh_state valid_ref)
    as (f & s' & E).
  exists f, s'. split; [ exact E | ].
  pose proof (dwarf_filter_body_returns convolve_ref_shape _ _ _ _ _ _ _ E) as R.
  rewrite (ret_xdiff_angular _ _ _ _ _ _ _ R), (ret_ymean _ _ _ _ _ _ _ R).
  split; [ vm_compute; reflexivity | ].
  split; [ vm_compute; reflexivity | ].
  split; intros C; vm_compute in C; discriminate.
Qed.

(** C7 on one peak at column 1 of row 2 in a field of three rows
    and two columns over the extent [0, 1/30] by [0, 1/20]. *)
Lemma one_peak_coordinates :
  exists ras decs,
    add_ra_dec 1%positive [0; 1 # 30; 0; 1 # 20]%Q peaks_ref field_state
      = Ok (<["dec" := FloatCol decs]> (<["ra" := FloatCol ras]> peaks_ref)) field_state /\
    Forall2 (fun i r => (r == 0 + inject_Z i * ((1 # 30) - 0) / QofNat 2)%Q /\
                        (0 <= r <= 1 # 30)%Q) [1%Z] ras /\
    Forall2 (fun j d => (d == 0 + inject_Z j * ((1 # 20) - 0) / QofNat 3)%Q /\
                        (0 <= d <= 1 # 20)%Q) [2%Z] decs.
Proof.
  apply (peak_coordinates_are_linear 1%positive [0; 1 # 30; 0; 1 # 20]%Q peaks_ref field_state
           field_ref 0 (1 # 30) 0 (1 # 20) [1%Z] [2%Z] 3 2).
  - reflexivity.
  - reflexivity.
  - lia.
  - lia.
  - reflexivity.
  - reflexivity.
  - reflexivity.
  - reflexivity.
  - reflexivity.
  - repeat constructor; lia.
  - repeat constructor; lia.
Defined.

(** C8 on the reference field, no cell of which exceeds 6. *)
Lemma no_peak_above_six :
  find_peaks 1%positive 6 4 field_state
    = Ok (<["x_peak" := IntCol []]>
          (<["y_peak" := IntCol []]>
          (<["peak_value" := FloatCol []]> ∅))) field_state.
Proof.
  apply (find_peaks_none_above_threshold 1%positive field_ref 6 4 field_state).
  - reflexivity.
  - intros row v Hrow Hv. cbn in Hrow.
    repeat (destruct Hrow as [<-|Hrow]; [ cbn in Hv; intuition (subst; discriminate) | ]).
    destruct Hrow.
Defined.

(** ** More of the detector and of the peak cell, on the reference input *)

Lemma bins_ref : bins_x ra_ref dec_ref = 2%Z /\ bins_y dec_ref = 3%Z.
Proof. split; vm_compute; reflexivity. Qed.

Lemma peaks_ref_in_bins :
  Forall (fun i => (0 <= i < bins_x ra_ref dec_ref)%Z) [1%Z] /\
  Forall (fun j => (0 <= j < bins_y dec_ref)%Z) [2%Z].
Proof. destruct bins_ref as [-> ->]. split; repeat constructor; lia. Qed.


(** X2 on the four reference stars. *)
Lemma extent_of_four_stars :
  exists raw ext d c sg s' x0 y0,
    dwarf_filter ra_ref dec_ref 2 20 fresh_state = Ok (raw, ext, d, c, sg) s' /\
    ext = [x0; amax ra_ref; y0; amax dec_ref] /\
    (x0 == amin ra_ref)%Q /\ (y0 == amin dec_ref)%Q /\
    (amin ra_ref < amax ra_ref)%Q /\ (amin dec_ref < amax dec_ref)%Q.
Proof.
  exact (extent_is_the_data_range convolve_ref_shape ra_ref dec_ref 2 20 fresh_state valid_ref).
Defined.


(** X4 on the four reference stars. *)
Lemma clipped_minimum_on_four_stars :
  exists raw ext d c sg s',
    dwarf_filter ra_ref dec_ref 2 20 fresh_state = Ok (raw, ext, d, c, sg) s' /\
    exists (D C : array2) (rows cols : nat),
      heap s' !! d = Some D /\ heap s' !! c = Some C /\
      has_shape D rows cols /\ has_shape C rows cols /\
      (forall i j, (i < rows)%nat -> (j < cols)%nat ->
         (mean_of D <= item2 C i j)%Q /\ (item2 D i j <= item2 C i j)%Q) /\
      (exists i j, (i < rows)%nat /\ (j < cols)%nat /\ (item2 C i j == mean_of D)%Q).
Proof.
  exact (clipped_field_has_the_mean_as_minimum convolve_ref_shape
           ra_ref dec_ref 2 20 fresh_state valid_ref).
Defined.

(** X5 on the four reference stars. *)
Lemma bins_of_four_stars_are_arcminutes :
  exists raw ext d c sg s',
    dwarf_filter ra_ref dec_ref 2 20 fresh_state = Ok (raw, ext, d, c, sg) s' /\
    exists (H : array2) (rows cols : nat),
      heap s' !! raw = Some H /\ has_shape H rows cols /\
      (- (1 # 2) <= QofNat rows - (amax dec_ref - amin dec_ref) * 60 <= 1 # 2)%Q /\
      (- (1 # 2) <= QofNat cols
                    - (amax ra_ref - amin ra_ref)
                      * np_cos ((amin dec_ref + amax dec_ref) / 2 * (np_pi / 180)) * 60
       <= 1 # 2)%Q.
Proof.
  exact (bins_are_arcminutes convolve_ref_shape ra_ref dec_ref 2 20 fresh_state valid_ref).
Defined.

(** X6 on the four reference stars and a peak at column 1 of row 2. *)
Lemma bin_edges_of_one_peak :
  exists raw ext d c sg s' ras decs,
    dwarf_filter ra_ref dec_ref 2 20 fresh_state = Ok (raw, ext, d, c, sg) s' /\
    add_ra_dec c ext peaks_ref s'
      = Ok (<["dec" := FloatCol decs]> (<["ra" := FloatCol ras]> peaks_ref)) s' /\
    Forall2 (fun i r => exists e,
               nth_error (linspace (amin ra_ref) (amax ra_ref)
                                   (Z.to_nat (bins_x ra_ref dec_ref) + 1))
                         (Z.to_nat i) = Some e /\
               (r == e)%Q /\ (r < amax ra_ref)%Q) [1%Z] ras /\
    Forall2 (fun j r => exists e,
               nth_error (linspace (amin dec_ref) (amax dec_ref)
                                   (Z.to_nat (bins_y dec_ref) + 1))
                         (Z.to_nat j) = Some e /\
               (r == e)%Q /\ (r < amax dec_ref)%Q) [2%Z] decs.
Proof.
  exact (peak_coordinates_are_lower_bin_edges convolve_ref_shape
           ra_ref dec_ref 2 20 fresh_state peaks_ref [1%Z] [2%Z] valid_ref
           eq_refl eq_refl (proj1 peaks_ref_in_bins) (proj2 peaks_ref_in_bins)).
Defined.


(** X8 on the reference field and a table without columns. *)
Lemma table_without_columns_is_rejected :
  ((∅ : gmap string column) !! "x_peak" = None ->
   add_ra_dec 1%positive [0; 1 # 30; 0; 1 # 20]%Q ∅ field_state
     = Raise (KeyError "x_peak") field_state) /\
  (forall col, (∅ : gmap string column) !! "x_peak" = Some (FloatCol col) ->
   exists msg,
     add_ra_dec 1%positive [0; 1 # 30; 0; 1 # 20]%Q ∅ field_state
       = Raise (IndexError msg) field_state).
Proof.
  apply (peak_table_needs_integer_x_peak 1%positive [0; 1 # 30; 0; 1 # 20]%Q ∅ field_state
           field_ref 0 (1 # 30) 0 (1 # 20) 3 2).
  - reflexivity.
  - reflexivity.
  - lia.
  - lia.
  - reflexivity.
  - reflexivity.
  - reflexivity.
Defined.


(** X18 on the four reference stars, both widths 2. *)
Lemma zero_field_on_four_stars :
  exists raw ext d c sg s',
    dwarf_filter ra_ref dec_ref 2 2 fresh_state = Ok (raw, ext, d, c, sg) s' /\
    exists (D C : array2) (rows cols : nat),
      heap s' !! d = Some D /\ heap s' !! c = Some C /\
      has_shape D rows cols /\ has_shape C rows cols /\
      forall i j, (i < rows)%nat -> (j < cols)%nat ->
        (item2 D i j == 0)%Q /\ (item2 C i j == 0)%Q.
Proof.
  exact (equal_kernels_give_a_zero_field convolve_ref_shape ra_ref dec_ref 2 fresh_state
           valid_ref).
Defined.


(** ** The image cells on the reference archive *)

#[local] Existing Instance services_ref.

Lemma stacks_ref :
  Forall (fun band => exists row, In row rows_ref /\ stacked band row) ["g"; "r"; "i"].
Proof.
  repeat constructor.
  - exists {| proctype := "Stack"; prodtype := "image"; obs_bandpass := "g";
              exptime := 90; access_url := "g90" |}.
    split; [ now left | repeat split ].
  - exists {| proctype := "Stack"; prodtype := "image"; obs_bandpass := "r";
              exptime := 60; access_url := "r60" |}.
    split; [ right; now left | repeat split ].
  - exists {| proctype := "Stack"; prodtype := "image"; obs_bandpass := "i";
              exptime := 45; access_url := "i45" |}.
    split; [ do 4 right; now left | repeat split ].
Qed.

(** X10 on the reference archive, for the bands g, r and i. *)
Lemma deepest_stacks_of_the_reference_archive :
  exists images s',
    download_deepest_images 10 (-30) 0.1 ["g"; "r"; "i"] fresh_state = Ok images s' /\
    heap s' = heap fresh_state /\
    Forall2 (fun band img =>
               exists row,
                 In row rows_ref /\ stacked band row /\
                 (forall row', In row' rows_ref -> stacked band row' ->
                               (exptime row' <= exptime row)%Q) /\
                 img = fits_getdata (access_url row)) ["g"; "r"; "i"] images.
Proof.
  exact (download_returns_the_deepest_stack_of_each_band 10 (-30) 0.1 ["g"; "r"; "i"]
           fresh_state stacks_ref).
Defined.

Lemma no_stack_in_z :
  Exists (fun band => forall row, In row rows_ref -> ~ stacked band row) ["g"; "z"].
Proof.
  apply Exists_cons_tl, Exists_cons_hd. intros row Hin (_ & _ & Hband).
  cbn in Hin. repeat (destruct Hin as [<-|Hin]; [ discriminate Hband | ]). destruct Hin.
Qed.

(** X11 on the reference archive, which has no image in the band z. *)
Lemma band_z_is_not_in_the_reference_archive :
  exists msg s',
    download_deepest_images 10 (-30) 0.1 ["g"; "z"] fresh_state = Raise (ValueError msg) s' /\
    heap s' = heap fresh_state.
Proof.
  exact (band_without_stack_is_ValueError 10 (-30) 0.1 ["g"; "z"] fresh_state no_stack_in_z).
Defined.

(** X12 on a table of no peak. *)
Lemma first_peak_of_no_peak :
  exists msg,
    images_cell (<["ra" := FloatCol []]> ∅) 0 ["g"; "r"; "i"] fresh_state
    = Raise (IndexError msg) fresh_state.
Proof.
  apply (image_cell_of_missing_peak_is_IndexError (<["ra" := FloatCol []]> ∅) [] 0).
  - reflexivity.
  - right. cbn. lia.
Defined.


(** X14 on five pictures with five titles: the fifth is not drawn. *)
Lemma fifth_picture_is_not_drawn :
  plot_images (repeat (Mono field_ref) 5) ["a"; "b"; "c"; "d"; "e"]
  = (zip_with panel (firstn 4 (repeat (Mono field_ref) 5)) ["a"; "b"; "c"; "d"; "e"]
     ++ repeat add_subplot (4 - length (repeat (Mono field_ref) 5)), None).
Proof.
  apply (plot_images_draws_four_at_most (repeat (Mono field_ref) 5) ["a"; "b"; "c"; "d"; "e"]).
  cbn. lia.
Defined.

(** X15 on four pictures with the default titles. *)
Lemma four_pictures_with_default_titles :
  exists img msg,
    nth_error (repeat (Mono field_ref) 4) (length ["g"; "r"; "i"]) = Some img /\
    plot_images (repeat (Mono field_ref) 4) ["g"; "r"; "i"]
    = (zip_with panel (repeat (Mono field_ref) 4) ["g"; "r"; "i"]
       ++ {| image := Some img; axis_on := false; title := None |}
       :: repeat add_subplot (3 - length ["g"; "r"; "i"]),
       Some (IndexError msg)).
Proof.
  apply (plot_images_short_of_titles_is_IndexError (repeat (Mono field_ref) 4) ["g"; "r"; "i"]).
  cbn. lia.
Defined.


(** X17 on two images. *)
Lemma two_images_make_no_composite :
  exists msg, plot_cell [field_ref; field_ref] ["g"; "r"] fresh_state
              = Raise (TypeError msg) fresh_state.
Proof.
  apply (fewer_than_three_images_is_TypeError [field_ref; field_ref] ["g"; "r"] fresh_state).
  cbn. lia.
Defined.

End Reference.
